(** * Seat booking with per-seat leases (ticket booking example)

    Shallow embedding of the booking core of the ticketing example:
    the in-memory lock store [DummyRedis], the helpers [acquireLock] and
    [releaseLock], the entities [Seat] and [Booking], and
    [BookingSystem.bookSeats].

    Modelling choices, following the TypeScript source:
    - [Date.now()] is a clock value passed to each step;
    - the [Map] of the lock store is a [gmap string entry];
    - [Seat] objects are shared by reference (a screen of a show, the
      bookings and the selected seats all point to the same objects), so
      seats live in a heap [loc -> Seat] and everything else holds [loc]s;
    - [bookSeats] is an async function: it is cut into atomic steps at its
      [await] points ([step_thread]); a call run alone is [run], and calls
      running concurrently are interleavings of steps ([sys_step]);
    - the three [throw new Error(...)] of the call are the constructors of
      [outcome]. *)

From stdpp Require Import base gmap strings list.
From Stdlib Require Import ZArith Lia.

Local Open Scope string_scope.

(* ------------------------------------------------------------------ *)
(** ** The lock store *)

Definition LOCK_TIMEOUT : Z := 3000.

Record entry := mkEntry { value : string; expiresAt : Z }.

Module DummyRedis.

(** [async set(key, value)]: refuses if a live entry exists
    ([existing.expiresAt > now]), otherwise overwrites. *)
Definition set (now : Z) (st : gmap string entry) (key v : string)
  : bool * gmap string entry :=
  match st !! key with
  | Some existing =>
      if Z.ltb now (expiresAt existing) then (false, st)
      else (true, <[key := mkEntry v (now + LOCK_TIMEOUT)%Z]> st)
  | None => (true, <[key := mkEntry v (now + LOCK_TIMEOUT)%Z]> st)
  end.

(** [async get(key, value)] *)
Definition get (now : Z) (st : gmap string entry) (key : string)
  : option string :=
  match st !! key with
  | None => None
  | Some e => if Z.ltb (expiresAt e) now then None else Some (value e)
  end.

(** [async del(key)] *)
Definition del (st : gmap string entry) (key : string) : gmap string entry :=
  delete key st.

End DummyRedis.

(** [acquireLock(key, value)]: [result === true]. *)
Definition acquireLock (now : Z) (st : gmap string entry) (key v : string)
  : bool * gmap string entry :=
  let (result, st') := DummyRedis.set now st key v in
  (if result then true else false, st').

(** [releaseLock(key)] *)
Definition releaseLock (st : gmap string entry) (key : string)
  : gmap string entry :=
  DummyRedis.del st key.

(* ------------------------------------------------------------------ *)
(** ** Domain model *)

Inductive SeatStatus := AVAILABLE | BOOKED.
Inductive BookingStatus := PENDING | CONFIRMED | CANCELLED.

Record User := mkUser { user_id : string; user_name : string; email : string }.
Record Movie := mkMovie { movie_id : string; title : string }.

Record Seat := mkSeat { seat_id : string; seatNumber : string; status : SeatStatus }.

(** Object references to seats are [nat]s; the seat objects form a heap
    [nat -> Seat]. *)
Definition heap_upd (h : nat -> Seat) (l : nat) (s : Seat) : nat -> Seat :=
  fun l' => if Nat.eqb l' l then s else h l'.

Record Screen := mkScreen { screen_id : string; screen_name : string; seats : list nat }.

Record Show := mkShow {
  show_id : string; movie : Movie; screen : Screen; pricePerSeat : Z }.

Definition is_available (s : Seat) : bool :=
  match status s with AVAILABLE => true | BOOKED => false end.

(** [Seat.book()]: throws when already booked ([None]). *)
Definition Seat_book (s : Seat) : option Seat :=
  match status s with
  | BOOKED => None
  | AVAILABLE => Some (mkSeat (seat_id s) (seatNumber s) BOOKED)
  end.

(** [Seat.release()] *)
Definition Seat_release (s : Seat) : Seat :=
  mkSeat (seat_id s) (seatNumber s) AVAILABLE.

(** [Show.getAvailableSeats()] *)
Definition getAvailableSeats (h : nat -> Seat) (sh : Show) : list nat :=
  filter (fun l => is_available (h l) = true) (seats (screen sh)).

Record Booking := mkBooking {
  booking_id : string; b_user : User; b_show : Show; b_seats : list nat;
  totalPrice : Z; b_status : BookingStatus }.

(** A Booking starts [PENDING] (field initialiser). *)
Definition new_Booking (id : string) (u : User) (sh : Show) (ss : list nat)
  (price : Z) : Booking :=
  mkBooking id u sh ss price PENDING.

Definition set_b_status (b : Booking) (st : BookingStatus) : Booking :=
  mkBooking (booking_id b) (b_user b) (b_show b) (b_seats b) (totalPrice b) st.

(** [Booking.confirm()] *)
Definition confirm (b : Booking) : Booking := set_b_status b CONFIRMED.

(** [Booking.cancel()]: status, then [this.seats.forEach(s => s.release())]. *)
Definition cancel (h : nat -> Seat) (b : Booking) : (nat -> Seat) * Booking :=
  (fold_left (fun h' l => heap_upd h' l (Seat_release (h' l))) (b_seats b) h,
   set_b_status b CANCELLED).

(* ------------------------------------------------------------------ *)
(** ** The booking system *)

(** The shared mutable state: the lock store (module-level [redisClient]),
    the seat objects, and [BookingSystem.bookings]. *)
Record World := mkWorld {
  w_store : gmap string entry; w_heap : nat -> Seat; bookings : list Booking }.

Definition set_store (w : World) (st : gmap string entry) : World :=
  mkWorld st (w_heap w) (bookings w).

(** What a call ends with: the returned booking, or one of its throws. *)
Inductive outcome :=
  | OkBooking (b : Booking)
  | ErrContention (sn : string)  (** `Seat ${seatNumber} is currently being booked by someone else.` *)
  | ErrUnavailable               (** 'One or more seats already booked.' *)
  | ErrAlreadyBooked.            (** 'Seat is already booked' from [Seat.book] *)

(** Where a call is in its body. *)
Inductive phase :=
  | Acquiring (todo : list nat)                    (** the [for] over selectedSeats *)
  | ContentionRelease (todo : list nat) (seat : nat) (** the inner unlock loop; [seat] is the contended one *)
  | Commit                                         (** the [try] block *)
  | FinallyRelease (todo : list nat) (r : outcome) (** the [finally] loop *)
  | Done (r : outcome).

Record thread := mkThread {
  th_user : User; th_show : Show; th_token : string; th_bid : string;
  th_selected : list nat; th_phase : phase }.

Definition set_phase (t : thread) (p : phase) : thread :=
  mkThread (th_user t) (th_show t) (th_token t) (th_bid t) (th_selected t) p.

(** [`seat_lock:${show.id}:${seat.id}`] *)
Definition lock_key (showId seatId : string) : string :=
  "seat_lock:" ++ showId ++ ":" ++ seatId.

(** [`seat_lock:${seat.id}`], the key of the [finally] loop. *)
Definition finally_key (seatId : string) : string :=
  "seat_lock:" ++ seatId.

(** [seatIds.includes(x)] *)
Definition includes (seatIds : list string) (x : string) : bool :=
  existsb (String.eqb x) seatIds.

(** [show.screen.seats.filter((seat) => seatIds.includes(seat.id))] *)
Definition selectSeats (h : nat -> Seat) (sh : Show) (seatIds : list string)
  : list nat :=
  filter (fun l => includes seatIds (seat_id (h l)) = true) (seats (screen sh)).

(** The lock key of a seat of a show. *)
Definition seat_lock_key (h : nat -> Seat) (sh : Show) (l : nat) : string :=
  lock_key (show_id sh) (seat_id (h l)).

(** The lock keys of a call, in the order the [for] loop acquires them. *)
Definition lock_order (h : nat -> Seat) (sh : Show) (seatIds : list string)
  : list string :=
  map (seat_lock_key h sh) (selectSeats h sh seatIds).

(** Entering [bookSeats]: the synchronous prefix up to the first [await]
    ([selectedSeats], [lockToken = uuidv4()]; the booking id is the later
    [crypto.randomUUID()]). *)
Definition start_call (h : nat -> Seat) (u : User) (sh : Show)
  (seatIds : list string) (token bid : string) : thread :=
  let sel := selectSeats h sh seatIds in
  mkThread u sh token bid sel (Acquiring sel).

(** [selectedSeats.forEach(seat => seat.book())]: seats booked before a
    throwing one stay booked. [false] when [book] threw. *)
Fixpoint book_all (h : nat -> Seat) (ls : list nat) : (nat -> Seat) * bool :=
  match ls with
  | [] => (h, true)
  | l :: rest =>
      match Seat_book (h l) with
      | None => (h, false)
      | Some s' => book_all (heap_upd h l s') rest
      end
  end.

(** One atomic step of a [bookSeats] call: the code between two [await]s. *)
Definition step_thread (now : Z) (w : World) (t : thread) : World * thread :=
  let h := w_heap w in
  let sid := show_id (th_show t) in
  match th_phase t with
  | Acquiring [] => (w, set_phase t Commit)
  | Acquiring (l :: rest) =>
      let s := h l in
      let (locked, st') := acquireLock now (w_store w) (lock_key sid (seat_id s)) (th_token t) in
      if locked then (set_store w st', set_phase t (Acquiring rest))
      else (set_store w st', set_phase t (ContentionRelease (th_selected t) l))
  | ContentionRelease [] c => (w, set_phase t (Done (ErrContention (seatNumber (h c)))))
  | ContentionRelease (l :: rest) c =>
      (set_store w (releaseLock (w_store w) (lock_key sid (seat_id (h l)))),
       set_phase t (ContentionRelease rest c))
  | Commit =>
      let sel := th_selected t in
      if existsb (fun l => negb (is_available (h l))) sel
      then (w, set_phase t (FinallyRelease sel ErrUnavailable))
      else
        let (h', ok) := book_all h sel in
        if ok then
          let total := (Z.of_nat (length sel) * pricePerSeat (th_show t))%Z in
          let b := confirm (new_Booking (th_bid t) (th_user t) (th_show t) sel total) in
          (mkWorld (w_store w) h' (bookings w ++ [b]),
           set_phase t (FinallyRelease sel (OkBooking b)))
        else (mkWorld (w_store w) h' (bookings w),
              set_phase t (FinallyRelease sel ErrAlreadyBooked))
  | FinallyRelease [] r => (w, set_phase t (Done r))
  | FinallyRelease (l :: rest) r =>
      (set_store w (releaseLock (w_store w) (finally_key (seat_id (h l)))),
       set_phase t (FinallyRelease rest r))
  | Done _ => (w, t)
  end.

(** A call running alone: [n] steps, the [i]-th reading [clock i]. *)
Fixpoint run (n : nat) (clock : nat -> Z) (i : nat) (w : World) (t : thread)
  : World * thread :=
  match n with
  | O => (w, t)
  | S n' => let (w', t') := step_thread (clock i) w t in run n' clock (S i) w' t'
  end.

(** [await system.bookSeats(user, show, seatIds)] run to its return. *)
Definition bookSeats (clock : nat -> Z) (w : World) (u : User) (sh : Show)
  (seatIds : list string) (token bid : string) : World * thread :=
  let t := start_call (w_heap w) u sh seatIds token bid in
  run (2 * length (th_selected t) + 3) clock 0 w t.

(** Concurrent calls: any call takes its next step, at any clock value. *)
Inductive sys_step : World * list thread -> World * list thread -> Prop :=
  | SysStep (w : World) (ts : list thread) (i : nat) (t : thread) (now : Z)
      (w' : World) (t' : thread) :
      ts !! i = Some t ->
      step_thread now w t = (w', t') ->
      sys_step (w, ts) (w', <[i := t']> ts).

Definition reachable := rtc sys_step.

(* ------------------------------------------------------------------ *)
(** ** The demo data of the source *)

Definition user1 := mkUser "u1" "Chenna" "chenna@example.com".
Definition user2 := mkUser "u2" "ZestyZilla" "zilla@example.com".
Definition movie1 := mkMovie "m1" "Fast & Curious: Lock Drift".

Definition demo_heap : nat -> Seat := fun l =>
  match l with
  | 0 => mkSeat "s1" "A1" AVAILABLE
  | 1 => mkSeat "s2" "A2" AVAILABLE
  | _ => mkSeat "s3" "A3" AVAILABLE
  end.

Definition screen1 := mkScreen "screen1" "IMAX" [0; 1; 2].
Definition show1 := mkShow "show1" movie1 screen1 300.
Definition demo_world := mkWorld ∅ demo_heap [].
Definition clock0 : nat -> Z := fun _ => 0%Z.

Definition phase_of (r : World * thread) : phase := th_phase (snd r).

(** The calls [confirm()] and [cancel()] on a booking, applied in turn. *)
Inductive booking_call := CallConfirm | CallCancel.

Definition apply_call (hb : (nat -> Seat) * Booking) (c : booking_call)
  : (nat -> Seat) * Booking :=
  match c with
  | CallConfirm => (fst hb, confirm (snd hb))
  | CallCancel => cancel (fst hb) (snd hb)
  end.

Definition apply_calls (hb : (nat -> Seat) * Booking) (cs : list booking_call)
  : (nat -> Seat) * Booking :=
  fold_left apply_call cs hb.

(** A bound on the number of steps a call still takes. *)
Definition measure (t : thread) : nat :=
  match th_phase t with
  | Acquiring todo => length todo + length (th_selected t) + 3
  | ContentionRelease todo _ => length todo + 1
  | Commit => length (th_selected t) + 2
  | FinallyRelease todo _ => length todo + 1
  | Done _ => 0
  end.

Definition is_done (p : phase) : bool :=
  match p with Done _ => true | _ => false end.

Definition is_contention (r : outcome) : bool :=
  match r with ErrContention _ => true | _ => false end.

Definition seat_booked (s : Seat) : Seat := mkSeat (seat_id s) (seatNumber s) BOOKED.

(** The seat objects keep their ids and labels. *)
Definition same_ids (h0 h : nat -> Seat) : Prop :=
  forall l, seat_id (h l) = seat_id (h0 l) /\ seatNumber (h l) = seatNumber (h0 l).

(** Lock cleanup on the contention path of a call started on heap [h0]:
    the keys of the seats the inner loop has passed are gone. *)
Definition cleanup_inv (h0 : nat -> Seat) (w : World) (t : thread) : Prop :=
  same_ids h0 (w_heap w) /\
  match th_phase t with
  | Acquiring todo => exists pre, th_selected t = (pre ++ todo)%list
  | ContentionRelease todo c =>
      c ∈ th_selected t /\
      exists pre, th_selected t = (pre ++ todo)%list /\
        forall l, l ∈ pre -> w_store w !! seat_lock_key h0 (th_show t) l = None
  | FinallyRelease _ r => is_contention r = false
  | Done r =>
      is_contention r = true ->
      (exists c, c ∈ th_selected t /\ r = ErrContention (seatNumber (h0 c))) /\
      forall l, l ∈ th_selected t -> w_store w !! seat_lock_key h0 (th_show t) l = None
  | _ => True
  end.

(** A call whose selected seats include one whose key [k] holds the live
    entry [e] never gets past that seat: it ends on the contention path. *)
Definition stuck_inv (h0 : nat -> Seat) (k : string) (e : entry) (w : World)
  (t : thread) : Prop :=
  match th_phase t with
  | Acquiring todo => k ∈ map (seat_lock_key h0 (th_show t)) todo /\ w_store w !! k = Some e
  | ContentionRelease _ _ => True
  | Done r => is_contention r = true
  | _ => False
  end.

(** What a call has committed to: its outcome once past the [try] block
    or the unlock loop. *)
Definition result_of (p : phase) : option outcome :=
  match p with
  | FinallyRelease _ r => Some r
  | Done r => Some r
  | _ => None
  end.

(** A returned booking is the one built by the [try] block. *)
Definition ok_inv (t : thread) : Prop :=
  forall b, result_of (th_phase t) = Some (OkBooking b) ->
    b = confirm (new_Booking (th_bid t) (th_user t) (th_show t) (th_selected t)
                   (Z.of_nat (length (th_selected t)) * pricePerSeat (th_show t))%Z).

(** The effect of a call on the seats and the booking store, relative to
    the world [w0] it started in. *)
Definition effect_inv (w0 w : World) (t : thread) : Prop :=
  match result_of (th_phase t) with
  | Some (OkBooking b) =>
      (forall l, l ∈ th_selected t -> status (w_heap w0 l) = AVAILABLE) /\
      (forall l, w_heap w l =
                 if decide (l ∈ th_selected t) then seat_booked (w_heap w0 l) else w_heap w0 l) /\
      bookings w = (bookings w0 ++ [b])%list
  | Some ErrAlreadyBooked => False
  | _ => w_heap w = w_heap w0 /\ bookings w = bookings w0
  end.

(** A call has returned a booking, or is releasing its locks after having
    built one. *)
Definition committed_ok (t : thread) : Prop :=
  exists b, result_of (th_phase t) = Some (OkBooking b).

(** The arguments of one [bookSeats] call. *)
Record call_req := mkReq {
  c_user : User; c_show : Show; c_ids : list string; c_token : string; c_bid : string }.

(** Calls entered concurrently, on the seat objects [h0]. *)
Definition start_all (h0 : nat -> Seat) (reqs : list call_req) : list thread :=
  map (fun r => start_call h0 (c_user r) (c_show r) (c_ids r) (c_token r) (c_bid r)) reqs.

(** Invariant of concurrent calls: the selected seats of each call are
    those of its request, the seats of a call that has booked are Booked,
    two calls that have booked share no seat, and a call selecting each
    seat once never meets 'Seat is already booked'. *)
Definition sys_inv (h0 : nat -> Seat) (reqs : list call_req) (w : World)
  (ts : list thread) : Prop :=
  length ts = length reqs /\
  (forall i t r, ts !! i = Some t -> reqs !! i = Some r ->
     th_selected t = selectSeats h0 (c_show r) (c_ids r)) /\
  (forall i t, ts !! i = Some t -> committed_ok t ->
     forall l, l ∈ th_selected t -> status (w_heap w l) = BOOKED) /\
  (forall i j ti tj, i <> j -> ts !! i = Some ti -> ts !! j = Some tj ->
     committed_ok ti -> committed_ok tj ->
     forall l, l ∈ th_selected ti -> l ∈ th_selected tj -> False) /\
  (forall i t, ts !! i = Some t -> NoDup (th_selected t) ->
     result_of (th_phase t) <> Some ErrAlreadyBooked).

(** The seats a call still has to visit are seats it selected. *)
Definition todo_wf (t : thread) : Prop :=
  match th_phase t with
  | Acquiring todo | ContentionRelease todo _ | FinallyRelease todo _ =>
      forall l, l ∈ todo -> l ∈ th_selected t
  | _ => True
  end.

(** Key [k] is none of the keys a call acquires or releases: neither
    [`seat_lock:${show.id}:${seat.id}`] nor [`seat_lock:${seat.id}`] of
    one of its selected seats (their ids read in [h0]). *)
Definition avoids_key (h0 : nat -> Seat) (k : string) (t : thread) : Prop :=
  forall l, l ∈ th_selected t ->
    k <> lock_key (show_id (th_show t)) (seat_id (h0 l)) /\ k <> finally_key (seat_id (h0 l)).

(** A screen that lists the same seat object twice. *)
Definition screen_dup := mkScreen "screen2" "Dup" [0; 0].
Definition show_dup := mkShow "show2" movie1 screen_dup 300.

(** A screen listing seat [s1] twice, then [s2]. *)
Definition screen_rep := mkScreen "screen3" "Rep" [0; 0; 1].
Definition show_rep := mkShow "show3" movie1 screen_rep 300.

(** The two concurrent calls of the demo, and two calls on [show_rep]. *)
Definition req1 := mkReq user1 show1 ["s1"; "s2"] "tok1" "b1".
Definition req2 := mkReq user2 show1 ["s2"; "s3"] "tok2" "b2".
Definition demo_reqs : list call_req := [req1; req2].
Definition rep_reqs : list call_req :=
  [mkReq user1 show_rep ["s2"] "tokA" "bA"; mkReq user2 show_rep ["s1"; "s2"] "tokB" "bB"].

(** A clock moving [LOCK_TIMEOUT] between two steps. *)
Definition slow_clock : nat -> Z := fun j => (Z.of_nat j * LOCK_TIMEOUT)%Z.

(** The booking of seat [s1] alone. *)
Definition booking_s1 := mkBooking "b1" user1 show1 [0] 300 CONFIRMED.

(** The demo calls run one after the other. *)
Definition demo_run1 :=
  run 10 clock0 0 demo_world (start_call demo_heap user1 show1 ["s1"; "s2"] "tok1" "b1").
Definition demo_run2 :=
  run 10 clock0 0 (fst demo_run1) (start_call demo_heap user2 show1 ["s2"; "s3"] "tok2" "b2").

(** The calls on [show_rep]: the second one first, on the slow clock,
    then the first one at time 20000. *)
Definition rep_run_B :=
  run 10 slow_clock 0 demo_world (start_call demo_heap user2 show_rep ["s1"; "s2"] "tokB" "bB").
Definition rep_run_A :=
  run 10 (fun _ => 20000%Z) 0 (fst rep_run_B)
    (start_call demo_heap user1 show_rep ["s2"] "tokA" "bA").

(** The script at the end of the source: user1 books [s1], [s2], then
    user2 books [s2], [s3]; the first throw is caught and ends the [try]
    (the caught error is returned). [c1] and [c2] are the [Date.now()]
    readings of the two calls, [tok1], [tok2] their [uuidv4()] tokens and
    [b1], [b2] their [crypto.randomUUID()] booking ids. *)
Definition main_script (c1 c2 : nat -> Z) : World * option outcome :=
  let (w1, t1) := bookSeats c1 demo_world user1 show1 ["s1"; "s2"] "tok1" "b1" in
  match result_of (th_phase t1) with
  | Some (OkBooking _) =>
      let (w2, t2) := bookSeats c2 w1 user2 show1 ["s2"; "s3"] "tok2" "b2" in
      match result_of (th_phase t2) with
      | Some (OkBooking _) => (w2, None)
      | r => (w2, r)
      end
  | r => (w1, r)
  end.

(** The fields the script logs for each booking of [getBookings()], and
    the label and status it logs for each seat of the show's screen. *)
Definition booking_report (h : nat -> Seat) (b : Booking) :=
  (booking_id b, user_name (b_user b), map (fun l => seatNumber (h l)) (b_seats b),
   b_status b, totalPrice b).

Definition seat_report (h : nat -> Seat) (sh : Show) :=
  map (fun l => (seatNumber (h l), status (h l))) (seats (screen sh)).

(** The demo world with a live lease of another client on [s2] of show1. *)
Definition world_leased : World :=
  mkWorld (<["seat_lock:show1:s2" := mkEntry "other" 5000]> ∅) demo_heap [].

(** The world after the first booking of the demo. *)
Definition world_after_user1 : World :=
  fst (bookSeats clock0 demo_world user1 show1 ["s1"; "s2"] "tok1" "b1").

(** The acquisitions of the [for] loop over [selectedSeats]: from the
    [i]-th [Date.now()] reading on, [acquireLock] on each seat's key in
    turn; the loop stops at the first seat whose lock is refused
    ([Some] that seat), or passes all of them ([None]). *)
Fixpoint acquire_loop (clock : nat -> Z) (i : nat) (st : gmap string entry)
  (h : nat -> Seat) (sh : Show) (tok : string) (ls : list nat)
  : gmap string entry * option nat :=
  match ls with
  | [] => (st, None)
  | l :: rest =>
      let (locked, st') := acquireLock (clock i) st (seat_lock_key h sh l) tok in
      if locked then acquire_loop clock (S i) st' h sh tok rest else (st', Some l)
  end.

(** What a call whose [for] loop, from the [j]-th clock reading on, has
    the acquisition of seat [c] refused keeps along its steps: it touches
    no seat and no booking, and reaches the unlock loop for [c]. *)
Definition refused_inv (clock : nat -> Z) (h0 : nat -> Seat) (bs : list Booking)
  (sh : Show) (tok : string) (st : gmap string entry) (c : nat)
  (j : nat) (w : World) (t : thread) : Prop :=
  w_heap w = h0 /\ bookings w = bs /\ th_show t = sh /\ th_token t = tok /\
  match th_phase t with
  | Acquiring todo => acquire_loop clock j (w_store w) h0 sh tok todo = (st, Some c)
  | ContentionRelease _ c' => c' = c
  | Commit | FinallyRelease _ _ => False
  | Done r => r = ErrContention (seatNumber (h0 c))
  end.

(* ------------------------------------------------------------------ *)
(** ** Properties *)

Example demo_user1 :
  phase_of (bookSeats clock0 demo_world user1 show1 ["s1"; "s2"] "tok1" "b1")
  = Done (OkBooking (mkBooking "b1" user1 show1 [0; 1] 600 CONFIRMED)).
Proof. vm_compute. reflexivity. Qed.


(** *** The lock store *)

Lemma acquireLock_eq (now : Z) (st : gmap string entry) (key v : string) :
  acquireLock now st key v = DummyRedis.set now st key v.
Proof.
  unfold acquireLock. destruct (DummyRedis.set now st key v) as [[] st']; reflexivity.
Qed.

(** C5: lock acquisition succeeds, recording an entry with expiry
    [now + LOCK_TIMEOUT], exactly when there is no entry for the key or
    the entry's expiry is not after [now] (the expiry instant has been
    reached); otherwise it returns false and leaves the store unchanged,
    whatever token holds the live entry, the caller's own included. *)
Theorem acquireLock_spec (now : Z) (st : gmap string entry) (key tok : string) :
  (fst (acquireLock now st key tok) = true <->
     st !! key = None \/ exists e, st !! key = Some e /\ (expiresAt e <= now)%Z) /\
  snd (acquireLock now st key tok) =
    (if fst (acquireLock now st key tok)
     then <[key := mkEntry tok (now + LOCK_TIMEOUT)%Z]> st else st) /\
  (forall e, st !! key = Some e -> (now < expiresAt e)%Z ->
     acquireLock now st key tok = (false, st)).
Proof.
  rewrite acquireLock_eq. unfold DummyRedis.set.
  destruct (st !! key) as [e|] eqn:He.
  - destruct (Z.ltb_spec now (expiresAt e)) as [Hlt|Hge]; simpl.
    + split; [|split; [reflexivity|]].
      * split; [discriminate|]. intros [Hn|[e' [He' Hle]]]; [discriminate|].
        injection He' as <-. lia.
      * intros e' He' _. reflexivity.
    + split; [|split; [reflexivity|]].
      * split; [intros _; right; exists e; split; [reflexivity|lia]|reflexivity].
      * intros e' He' Hlt. injection He' as <-. lia.
  - simpl. split; [|split; [reflexivity|]].
    + split; [intros _; left; reflexivity|reflexivity].
    + intros e' He'. discriminate.
Qed.

(** C9: a lock taken at time [t] and still recorded as taken (no release,
    no other write to its key) is acquired by any token, a different one
    included, at any time after [t + LOCK_TIMEOUT]. *)
Theorem lock_acquirable_after_ttl (t now : Z) (st st1 st2 : gmap string entry)
  (key tok tok' : string) :
  acquireLock t st key tok = (true, st1) ->
  st2 !! key = st1 !! key ->
  (t + LOCK_TIMEOUT < now)%Z ->
  fst (acquireLock now st2 key tok') = true.
Proof.
  rewrite !acquireLock_eq. unfold DummyRedis.set. intros Hacq H2 Hlt.
  assert (Hst1 : st1 !! key = Some (mkEntry tok (t + LOCK_TIMEOUT)%Z)).
  { destruct (st !! key) as [e|]; [destruct (Z.ltb t (expiresAt e))|];
      inversion Hacq; subst; try apply lookup_insert_eq. }
  rewrite H2, Hst1. simpl.
  destruct (Z.ltb_spec now (t + LOCK_TIMEOUT)); [lia|reflexivity].
Qed.

Lemma lock_acquirable_after_ttl_witness :
  acquireLock 0 ∅ "seat_lock:show1:s1" "tok1"
    = (true, <["seat_lock:show1:s1" := mkEntry "tok1" 3000]> ∅) /\
  (<["seat_lock:show1:s1" := mkEntry "tok1" 3000]> (∅ : gmap string entry))
    !! "seat_lock:show1:s1"
  = (<["seat_lock:show1:s1" := mkEntry "tok1" 3000]> (∅ : gmap string entry))
    !! "seat_lock:show1:s1" /\
  (0 + LOCK_TIMEOUT < 3001)%Z /\
  fst (acquireLock 3001 (<["seat_lock:show1:s1" := mkEntry "tok1" 3000]> ∅)
         "seat_lock:show1:s1" "tok2") = true.
Proof.
  split; [reflexivity|split; [reflexivity|split; [vm_compute; reflexivity|]]].
  apply (lock_acquirable_after_ttl 0 3001 ∅
           (<["seat_lock:show1:s1" := mkEntry "tok1" 3000]> ∅)
           (<["seat_lock:show1:s1" := mkEntry "tok1" 3000]> ∅)
           "seat_lock:show1:s1" "tok1" "tok2");
    [reflexivity|reflexivity|vm_compute; reflexivity].
Defined.

(** *** The Booking status *)

(** C4 (counterexample): [Booking.confirm()] does not look at the status,
    so a cancelled booking is confirmed again. *)
Lemma booking_cancel_then_confirm :
  let b0 := confirm (new_Booking "b1" user1 show1 [0; 1] 600) in
  b_status (snd (apply_calls (demo_heap, b0) [CallCancel])) = CANCELLED /\
  b_status (snd (apply_calls (demo_heap, b0) [CallCancel; CallConfirm])) = CONFIRMED.
Proof. split; reflexivity. Qed.

(** C4 (amended): neither [confirm()] nor [cancel()] checks the current
    status; after any sequence of calls the status is the one set by the
    last call, and is unchanged by the empty sequence. *)
Theorem booking_status_last_call (h : nat -> Seat) (b : Booking)
  (cs : list booking_call) :
  b_status (snd (apply_calls (h, b) cs)) =
    match last cs with
    | None => b_status b
    | Some CallConfirm => CONFIRMED
    | Some CallCancel => CANCELLED
    end.
Proof.
  unfold apply_calls.
  induction cs as [|c cs IH] in h, b |- *; [reflexivity|].
  simpl fold_left. destruct (apply_call (h, b) c) as [h1 b1] eqn:Hc.
  destruct cs as [|c' cs'].
  - simpl. destruct c; inversion Hc; reflexivity.
  - rewrite IH. simpl last.
    destruct (last (c' :: cs')) as [[]|] eqn:Hl; try reflexivity.
    apply last_None in Hl. discriminate.
Qed.

(** *** Lock acquisition order *)

Lemma string_app_cancel_l (p a b : string) : p ++ a = p ++ b -> a = b.
Proof. induction p as [|ch p IH]; simpl; [auto|]. intros H. injection H. auto. Qed.

Lemma lock_key_inj (sid x y : string) : lock_key sid x = lock_key sid y -> x = y.
Proof.
  unfold lock_key. intros H.
  do 3 apply string_app_cancel_l in H. exact H.
Qed.

Lemma filter_bool_ext {A} (f g : A -> bool) (l : list A) :
  (forall x, x ∈ l -> f x = g x) ->
  filter (fun x => f x = true) l = filter (fun x => g x = true) l.
Proof.
  induction l as [|x l IH]; intros Hfg; [reflexivity|].
  rewrite !filter_cons. rewrite (Hfg x) by (left).
  rewrite IH by (intros y Hy; apply Hfg; right; exact Hy). reflexivity.
Qed.

Lemma lock_order_heap_ext (h1 h2 : nat -> Seat) (sh : Show) (ids : list string) :
  (forall l, seat_id (h1 l) = seat_id (h2 l)) ->
  lock_order h1 sh ids = lock_order h2 sh ids.
Proof.
  intros Hid. unfold lock_order, selectSeats.
  rewrite (filter_bool_ext _ (fun l => includes ids (seat_id (h2 l))))
    by (intros x _; rewrite Hid; reflexivity).
  apply map_ext. intros l. unfold seat_lock_key. rewrite Hid. reflexivity.
Qed.

Lemma seat_key_in_lock_order (h : nat -> Seat) (sh : Show) (ids : list string)
  (x : nat) :
  x ∈ seats (screen sh) ->
  (seat_lock_key h sh x ∈ lock_order h sh ids <-> includes ids (seat_id (h x)) = true).
Proof.
  intros Hx. unfold lock_order, selectSeats.
  rewrite list_elem_of_In, in_map_iff. split.
  - intros [y [Hy Hin]]. apply lock_key_inj in Hy.
    apply list_elem_of_In, list_elem_of_filter in Hin as [Hi _].
    rewrite <- Hy. exact Hi.
  - intros Hi. exists x. split; [reflexivity|].
    apply list_elem_of_In, list_elem_of_filter. split; assumption.
Qed.

Lemma filter_common_keys (h : nat -> Seat) (sh : Show) (ids1 ids2 : list string)
  (l : list nat) :
  (forall x, x ∈ l -> x ∈ seats (screen sh)) ->
  filter (fun k => k ∈ lock_order h sh ids2)
    (map (seat_lock_key h sh) (filter (fun x => includes ids1 (seat_id (h x)) = true) l))
  = map (seat_lock_key h sh)
      (filter (fun x => includes ids1 (seat_id (h x)) && includes ids2 (seat_id (h x)) = true) l).
Proof.
  induction l as [|x l IH]; intros Hl; [reflexivity|].
  assert (Hx : x ∈ seats (screen sh)) by (apply Hl; left).
  assert (IH' := IH (fun y Hy => Hl y (list_elem_of_further _ _ _ Hy))).
  rewrite !(filter_cons _ x l).
  destruct (includes ids1 (seat_id (h x))) eqn:H1; simpl.
  - rewrite filter_cons.
    destruct (decide (seat_lock_key h sh x ∈ lock_order h sh ids2)) as [Hin|Hnin].
    + apply (seat_key_in_lock_order h sh ids2 x Hx) in Hin. rewrite Hin. simpl.
      rewrite IH'. reflexivity.
    + destruct (includes ids2 (seat_id (h x))) eqn:H2; simpl.
      * exfalso. apply Hnin, (seat_key_in_lock_order h sh ids2 x Hx), H2.
      * exact IH'.
  - exact IH'.
Qed.

Lemma filter_common_keys_screen (h : nat -> Seat) (sh : Show) (ids1 ids2 : list string) :
  filter (fun k => k ∈ lock_order h sh ids2) (lock_order h sh ids1)
  = map (seat_lock_key h sh)
      (filter (fun x => includes ids1 (seat_id (h x)) && includes ids2 (seat_id (h x)) = true)
         (seats (screen sh))).
Proof. exact (filter_common_keys h sh ids1 ids2 (seats (screen sh)) (fun x Hx => Hx)). Qed.

(** C6: every call acquires its seat locks in the order of its show's
    screen seat list; so for two calls on the same show, started at any
    two moments (seat ids never change), the lock keys common to both are
    acquired in the same relative order. *)
Theorem lock_order_common (h1 h2 : nat -> Seat) (sh : Show) (ids1 ids2 : list string) :
  (forall l, seat_id (h1 l) = seat_id (h2 l)) ->
  filter (fun k => k ∈ lock_order h2 sh ids2) (lock_order h1 sh ids1)
  = filter (fun k => k ∈ lock_order h1 sh ids1) (lock_order h2 sh ids2).
Proof.
  intros Hid. rewrite (lock_order_heap_ext h2 h1) by (intros l; symmetry; apply Hid).
  rewrite !filter_common_keys_screen. f_equal. apply filter_bool_ext. intros x _. apply andb_comm.
Qed.

Lemma lock_order_common_witness :
  (forall l, seat_id (demo_heap l) = seat_id (demo_heap l)) /\
  filter (fun k => k ∈ lock_order demo_heap show1 ["s2"; "s3"])
    (lock_order demo_heap show1 ["s3"; "s1"; "s2"])
  = filter (fun k => k ∈ lock_order demo_heap show1 ["s3"; "s1"; "s2"])
      (lock_order demo_heap show1 ["s2"; "s3"]).
Proof.
  split; [reflexivity|].
  apply (lock_order_common demo_heap demo_heap show1 ["s3"; "s1"; "s2"] ["s2"; "s3"]).
  intros l; reflexivity.
Defined.

(** *** Steps and runs of a call *)

(** Case analysis of one step. *)
Ltac step_cases t :=
  unfold step_thread;
  let E := fresh "Eph" in
  destruct (th_phase t) as [[|l rest]|[|l rest] c| |[|l rest] r|r] eqn:E;
  repeat match goal with
  | |- context [let (_, _) := acquireLock ?now ?st ?k ?v in _] =>
      let E := fresh "Eacq" in destruct (acquireLock now st k v) as [[] st'] eqn:E
  | |- context [if existsb ?f ?l then _ else _] =>
      let E := fresh "Eex" in destruct (existsb f l) eqn:E
  | |- context [let (_, _) := book_all ?h ?l in _] =>
      let E := fresh "Ebk" in destruct (book_all h l) as [h' []] eqn:E
  end; simpl.

Lemma step_fields (now : Z) (w : World) (t : thread) :
  th_user (snd (step_thread now w t)) = th_user t /\
  th_show (snd (step_thread now w t)) = th_show t /\
  th_token (snd (step_thread now w t)) = th_token t /\
  th_bid (snd (step_thread now w t)) = th_bid t /\
  th_selected (snd (step_thread now w t)) = th_selected t.
Proof. step_cases t; repeat split. Qed.

Lemma step_done (now : Z) (w : World) (t : thread) (r : outcome) :
  th_phase t = Done r -> step_thread now w t = (w, t).
Proof. intros E. unfold step_thread. rewrite E. reflexivity. Qed.

Lemma step_measure (now : Z) (w : World) (t : thread) :
  is_done (th_phase t) = false -> measure (snd (step_thread now w t)) < measure t.
Proof.
  intros Hnd. unfold measure at 2.
  step_cases t; try discriminate; unfold measure; simpl; try lia.
Qed.

Lemma run_invariant (P : World -> thread -> Prop) (clock : nat -> Z) :
  (forall j w t, P w t ->
     P (fst (step_thread (clock j) w t)) (snd (step_thread (clock j) w t))) ->
  forall n i w t, P w t -> P (fst (run n clock i w t)) (snd (run n clock i w t)).
Proof.
  intros Hs n. induction n as [|n IH]; intros i w t H; simpl; [exact H|].
  specialize (Hs i w t H).
  destruct (step_thread (clock i) w t) as [w' t'] eqn:E.
  apply IH. exact Hs.
Qed.

Lemma run_from_done (n : nat) (clock : nat -> Z) (i : nat) (w : World) (t : thread)
  (r : outcome) :
  th_phase t = Done r -> run n clock i w t = (w, t).
Proof.
  intros E. induction n as [|n IH] in i |- *; simpl; [reflexivity|].
  rewrite (step_done _ _ _ r E). apply IH.
Qed.

Lemma run_done (n : nat) (clock : nat -> Z) (i : nat) (w : World) (t : thread) :
  measure t <= n -> is_done (th_phase (snd (run n clock i w t))) = true.
Proof.
  induction n as [|n IH] in i, w, t |- *; intros Hm.
  - destruct (th_phase t) eqn:E; unfold measure in Hm; rewrite E in Hm; try lia.
    simpl. rewrite E. reflexivity.
  - destruct (is_done (th_phase t)) eqn:Hd.
    + destruct (th_phase t) eqn:E; try discriminate.
      rewrite (run_from_done _ _ _ _ _ r E). simpl. rewrite E. reflexivity.
    + simpl. pose proof (step_measure (clock i) w t Hd) as Hlt.
      destruct (step_thread (clock i) w t) as [w' t'] eqn:E.
      apply IH. simpl in Hlt. lia.
Qed.

Lemma bookSeats_done (clock : nat -> Z) (w : World) (u : User) (sh : Show)
  (seatIds : list string) (token bid : string) :
  exists r, phase_of (bookSeats clock w u sh seatIds token bid) = Done r.
Proof.
  unfold bookSeats, phase_of.
  pose proof (run_done (2 * length (th_selected (start_call (w_heap w) u sh seatIds token bid)) + 3)
                clock 0 w (start_call (w_heap w) u sh seatIds token bid)) as H.
  assert (Hm : measure (start_call (w_heap w) u sh seatIds token bid)
               <= 2 * length (th_selected (start_call (w_heap w) u sh seatIds token bid)) + 3)
    by (unfold measure; simpl; lia).
  specialize (H Hm).
  destruct (th_phase (snd (run _ _ _ _ _))); try discriminate H.
  eexists; reflexivity.
Qed.

Lemma acquireLock_false (now : Z) (st st' : gmap string entry) (k v : string) :
  acquireLock now st k v = (false, st') -> st' = st.
Proof.
  rewrite acquireLock_eq. unfold DummyRedis.set.
  destruct (st !! k) as [e|]; [destruct (Z.ltb now (expiresAt e))|];
    intros H; inversion H; reflexivity.
Qed.

Lemma acquireLock_true (now : Z) (st st' : gmap string entry) (k v : string) :
  acquireLock now st k v = (true, st') ->
  st' = <[k := mkEntry v (now + LOCK_TIMEOUT)%Z]> st.
Proof.
  rewrite acquireLock_eq. unfold DummyRedis.set.
  destruct (st !! k) as [e|]; [destruct (Z.ltb now (expiresAt e))|];
    intros H; inversion H; reflexivity.
Qed.

(** *** Seat objects under [book] *)

Lemma same_ids_refl (h : nat -> Seat) : same_ids h h.
Proof. intros l. split; reflexivity. Qed.

Lemma same_ids_trans (h0 h1 h2 : nat -> Seat) :
  same_ids h0 h1 -> same_ids h1 h2 -> same_ids h0 h2.
Proof.
  intros H1 H2 l. destruct (H1 l), (H2 l). split; congruence.
Qed.

Lemma book_all_ids (h : nat -> Seat) (ls : list nat) :
  same_ids h (fst (book_all h ls)).
Proof.
  induction ls as [|a ls IH] in h |- *; simpl; [apply same_ids_refl|].
  unfold Seat_book. destruct (status (h a)); simpl; [|apply same_ids_refl].
  eapply same_ids_trans; [|apply IH].
  intros l. unfold heap_upd. destruct (Nat.eqb l a) eqn:E; [|split; reflexivity].
  apply Nat.eqb_eq in E. subst. split; reflexivity.
Qed.

Lemma step_same_ids (now : Z) (w : World) (t : thread) :
  same_ids (w_heap w) (w_heap (fst (step_thread now w t))).
Proof.
  step_cases t; try apply same_ids_refl;
    pose proof (book_all_ids (w_heap w) (th_selected t)) as Hb; rewrite Ebk in Hb; exact Hb.
Qed.

(** Booked seats stay booked. *)
Lemma book_all_keeps_booked (h : nat -> Seat) (ls : list nat) (l : nat) :
  status (h l) = BOOKED -> status (fst (book_all h ls) l) = BOOKED.
Proof.
  induction ls as [|a ls IH] in h |- *; intros Hb; simpl; [exact Hb|].
  unfold Seat_book. destruct (status (h a)) eqn:Ea; simpl; [|exact Hb].
  apply IH. unfold heap_upd. destruct (Nat.eqb l a); [reflexivity|exact Hb].
Qed.

(** A [forEach] that did not throw booked every seat of the list. *)
Lemma book_all_ok_booked (h : nat -> Seat) (ls : list nat) :
  snd (book_all h ls) = true ->
  forall l, l ∈ ls -> status (fst (book_all h ls) l) = BOOKED.
Proof.
  induction ls as [|a ls IH] in h |- *; simpl; intros Hok l Hl.
  - apply elem_of_nil in Hl. contradiction.
  - unfold Seat_book in *. destruct (status (h a)) eqn:Ea; simpl in *; [|discriminate].
    apply elem_of_cons in Hl as [->|Hl].
    + apply book_all_keeps_booked. unfold heap_upd. rewrite Nat.eqb_refl. reflexivity.
    + apply IH; assumption.
Qed.

(** With distinct, available seats the [forEach] does not throw and books
    exactly those seats. *)
Lemma book_all_nodup (h : nat -> Seat) (ls : list nat) :
  NoDup ls -> (forall l, l ∈ ls -> is_available (h l) = true) ->
  snd (book_all h ls) = true /\
  forall l, fst (book_all h ls) l = if decide (l ∈ ls) then seat_booked (h l) else h l.
Proof.
  induction ls as [|a ls IH] in h |- *; intros Hnd Hav; simpl.
  - split; [reflexivity|]. intros l. destruct (decide (l ∈ [])) as [Hin|]; [|reflexivity].
    apply elem_of_nil in Hin. contradiction.
  - apply NoDup_cons in Hnd as [Hna Hnd].
    assert (Ha : is_available (h a) = true) by (apply Hav; left).
    unfold is_available in Ha. unfold Seat_book.
    destruct (status (h a)) eqn:Ea; [|discriminate]. simpl.
    destruct (IH (heap_upd h a (mkSeat (seat_id (h a)) (seatNumber (h a)) BOOKED)) Hnd)
      as [Hok Heq].
    { intros l Hl. unfold heap_upd. destruct (Nat.eqb l a) eqn:E.
      - apply Nat.eqb_eq in E. subst. contradiction.
      - apply Hav. right. exact Hl. }
    split; [exact Hok|]. intros l. rewrite Heq. unfold heap_upd.
    destruct (decide (l ∈ ls)) as [Hin|Hnin];
      destruct (decide (l ∈ a :: ls)) as [Hin'|Hnin'].
    + destruct (Nat.eqb l a) eqn:E; [apply Nat.eqb_eq in E; subst; contradiction|reflexivity].
    + exfalso. apply Hnin'. right. exact Hin.
    + apply elem_of_cons in Hin' as [->|]; [|contradiction].
      rewrite Nat.eqb_refl. reflexivity.
    + destruct (Nat.eqb l a) eqn:E; [|reflexivity].
      apply Nat.eqb_eq in E. subst. exfalso. apply Hnin'. left.
Qed.

(** *** Cleanup on the contention path *)

Lemma step_cleanup (h0 : nat -> Seat) (now : Z) (w : World) (t : thread) :
  cleanup_inv h0 w t ->
  cleanup_inv h0 (fst (step_thread now w t)) (snd (step_thread now w t)).
Proof.
  intros [Hid Hph]. split.
  { eapply same_ids_trans; [exact Hid|apply step_same_ids]. }
  step_cases t; rewrite ?Eph in Hph; simpl in *; try exact I; try reflexivity.
  - (* Acquiring, success *)
    destruct Hph as [pre Hpre]. exists (pre ++ [l])%list.
    rewrite Hpre, <- app_assoc. reflexivity.
  - (* Acquiring, failure *)
    destruct Hph as [pre Hpre]. split.
    + rewrite Hpre. apply elem_of_app. right. left.
    + exists []. split; [reflexivity|]. intros l' Hl'. apply elem_of_nil in Hl'. contradiction.
  - (* ContentionRelease [] *)
    intros _. destruct Hph as [Hc [pre [Hpre Hcl]]]. split.
    + exists c. split; [exact Hc|]. destruct (Hid c) as [_ ->]. reflexivity.
    + rewrite app_nil_r in Hpre. rewrite Hpre. exact Hcl.
  - (* ContentionRelease (l :: rest) *)
    destruct Hph as [Hc [pre [Hpre Hcl]]]. split; [exact Hc|].
    exists (pre ++ [l])%list. split; [rewrite Hpre, <- app_assoc; reflexivity|].
    intros l' Hl'. unfold releaseLock, DummyRedis.del.
    assert (Hk : lock_key (show_id (th_show t)) (seat_id (w_heap w l))
                 = seat_lock_key h0 (th_show t) l)
      by (unfold seat_lock_key; destruct (Hid l) as [-> _]; reflexivity).
    rewrite Hk. apply elem_of_app in Hl' as [Hl'|Hl'].
    + rewrite lookup_delete_None. right. apply Hcl. exact Hl'.
    + apply list_elem_of_singleton in Hl'. subst. apply lookup_delete_eq.
  - (* FinallyRelease [] *)
    intros Hc. rewrite Hph in Hc. discriminate.
  - (* FinallyRelease (l :: rest) *)
    exact Hph.
  - (* Done *)
    rewrite Eph. exact Hph.
Qed.

Lemma cleanup_start (w0 : World) (u : User) (sh : Show) (ids : list string)
  (tok bid : string) :
  cleanup_inv (w_heap w0) w0 (start_call (w_heap w0) u sh ids tok bid).
Proof. split; [apply same_ids_refl|]. exists []. reflexivity. Qed.

Lemma bookSeats_cleanup (clock : nat -> Z) (w0 : World) (u : User) (sh : Show)
  (ids : list string) (tok bid : string) :
  cleanup_inv (w_heap w0) (fst (bookSeats clock w0 u sh ids tok bid))
    (snd (bookSeats clock w0 u sh ids tok bid)).
Proof.
  unfold bookSeats. apply run_invariant; [|apply cleanup_start].
  intros j w t. apply step_cleanup.
Qed.

Lemma bookSeats_fields (clock : nat -> Z) (w0 : World) (u : User) (sh : Show)
  (ids : list string) (tok bid : string) :
  let t := snd (bookSeats clock w0 u sh ids tok bid) in
  th_user t = u /\ th_show t = sh /\ th_token t = tok /\ th_bid t = bid /\
  th_selected t = selectSeats (w_heap w0) sh ids.
Proof.
  unfold bookSeats.
  apply (run_invariant (fun _ t => th_user t = u /\ th_show t = sh /\ th_token t = tok /\
           th_bid t = bid /\ th_selected t = selectSeats (w_heap w0) sh ids));
    [|repeat split].
  intros j w t (H1 & H2 & H3 & H4 & H5).
  destruct (step_fields (clock j) w t) as (E1 & E2 & E3 & E4 & E5).
  rewrite E1, E2, E3, E4, E5. repeat split; assumption.
Qed.

(** [run] with the index of the clock reading each step uses. *)
Lemma run_invariant_idx (P : nat -> World -> thread -> Prop) (clock : nat -> Z) :
  (forall j w t, P j w t ->
     P (S j) (fst (step_thread (clock j) w t)) (snd (step_thread (clock j) w t))) ->
  forall n i w t, P i w t -> P (n + i) (fst (run n clock i w t)) (snd (run n clock i w t)).
Proof.
  intros Hs n. induction n as [|n IH]; intros i w t H; simpl; [exact H|].
  specialize (Hs i w t H).
  destruct (step_thread (clock i) w t) as [w' t'] eqn:E.
  replace (S (n + i)) with (n + S i) by lia.
  apply IH. exact Hs.
Qed.

Lemma step_refused (clock : nat -> Z) (h0 : nat -> Seat) (bs : list Booking) (sh : Show)
  (tok : string) (st : gmap string entry) (x j : nat) (w : World) (t : thread) :
  refused_inv clock h0 bs sh tok st x j w t ->
  refused_inv clock h0 bs sh tok st x (S j)
    (fst (step_thread (clock j) w t)) (snd (step_thread (clock j) w t)).
Proof.
  intros (Hh & Hb & Hsh & Htok & H).
  destruct (step_fields (clock j) w t) as (_ & E2 & E3 & _ & _).
  unfold refused_inv. rewrite E2, E3.
  step_cases t; rewrite ?Eph in H; cbv beta iota in H; rewrite ?Eph;
    try (split; [exact Hh|split; [exact Hb|split; [exact Hsh|split; [exact Htok|]]]]);
    try exact H; try contradiction; simpl in H.
  - discriminate H.
  - rewrite Hh, Hsh, Htok in Eacq. fold (seat_lock_key h0 sh l) in Eacq.
    rewrite Eacq in H. exact H.
  - rewrite Hh, Hsh, Htok in Eacq. fold (seat_lock_key h0 sh l) in Eacq.
    rewrite Eacq in H. injection H as _ ->. reflexivity.
  - subst c. rewrite Hh. reflexivity.
Qed.

(** C8: if the [for] loop of a call has the acquisition of seat [c]
    refused (all seats before it being locked by the call), the call throws
    the contention error naming [c]'s seat number, and when it returns no
    lock of a seat it selected is left in the store, those it acquired
    included; no seat and no booking has changed. *)
Theorem contention_releases_acquired (clock : nat -> Z) (w0 : World) (u : User)
  (sh : Show) (ids : list string) (tok bid : string) (st : gmap string entry) (c : nat) :
  acquire_loop clock 0 (w_store w0) (w_heap w0) sh tok (selectSeats (w_heap w0) sh ids)
    = (st, Some c) ->
  phase_of (bookSeats clock w0 u sh ids tok bid)
    = Done (ErrContention (seatNumber (w_heap w0 c))) /\
  (forall l, l ∈ selectSeats (w_heap w0) sh ids ->
     w_store (fst (bookSeats clock w0 u sh ids tok bid)) !! seat_lock_key (w_heap w0) sh l
     = None) /\
  w_heap (fst (bookSeats clock w0 u sh ids tok bid)) = w_heap w0 /\
  bookings (fst (bookSeats clock w0 u sh ids tok bid)) = bookings w0.
Proof.
  intros Hloop.
  pose proof (run_invariant_idx (refused_inv clock (w_heap w0) (bookings w0) sh tok st c)
                clock (step_refused clock (w_heap w0) (bookings w0) sh tok st c)
                (2 * length (th_selected (start_call (w_heap w0) u sh ids tok bid)) + 3) 0 w0
                (start_call (w_heap w0) u sh ids tok bid)) as Hinv.
  fold (bookSeats clock w0 u sh ids tok bid) in Hinv.
  destruct (bookSeats_done clock w0 u sh ids tok bid) as [res Hr].
  pose proof (bookSeats_cleanup clock w0 u sh ids tok bid) as [_ Hc].
  destruct (bookSeats_fields clock w0 u sh ids tok bid) as (_ & Hsh & _ & _ & Hsel).
  unfold phase_of in Hr |- *. rewrite Hr in Hc |- *.
  destruct Hinv as (Hh & Hb & _ & _ & Hres).
  - split; [reflexivity|split; [reflexivity|split; [reflexivity|split; [reflexivity|]]]].
    exact Hloop.
  - rewrite Hr in Hres. subst res.
    destruct (Hc eq_refl) as [_ Hcl]. rewrite Hsh, Hsel in Hcl.
    split; [reflexivity|split; [exact Hcl|split; [exact Hh|exact Hb]]].
Qed.

Lemma contention_releases_acquired_witness :
  acquire_loop clock0 0 (w_store world_leased) (w_heap world_leased) show1 "tokA"
    (selectSeats (w_heap world_leased) show1 ["s1"; "s2"])
    = (<["seat_lock:show1:s1" := mkEntry "tokA" 3000]> (w_store world_leased), Some 1) /\
  phase_of (bookSeats clock0 world_leased user1 show1 ["s1"; "s2"] "tokA" "bA")
    = Done (ErrContention (seatNumber (w_heap world_leased 1))) /\
  (forall l, l ∈ selectSeats (w_heap world_leased) show1 ["s1"; "s2"] ->
     w_store (fst (bookSeats clock0 world_leased user1 show1 ["s1"; "s2"] "tokA" "bA"))
       !! seat_lock_key (w_heap world_leased) show1 l = None) /\
  w_heap (fst (bookSeats clock0 world_leased user1 show1 ["s1"; "s2"] "tokA" "bA"))
    = w_heap world_leased /\
  bookings (fst (bookSeats clock0 world_leased user1 show1 ["s1"; "s2"] "tokA" "bA"))
    = bookings world_leased.
Proof.
  assert (H : acquire_loop clock0 0 (w_store world_leased) (w_heap world_leased) show1 "tokA"
                (selectSeats (w_heap world_leased) show1 ["s1"; "s2"])
              = (<["seat_lock:show1:s1" := mkEntry "tokA" 3000]> (w_store world_leased), Some 1))
    by (vm_compute; reflexivity).
  split; [exact H|].
  exact (contention_releases_acquired clock0 world_leased user1 show1
           ["s1"; "s2"] "tokA" "bA" _ 1 H).
Defined.

Lemma step_stuck (h0 : nat -> Seat) (k : string) (e : entry) (now : Z) (w : World)
  (t : thread) :
  (now < expiresAt e)%Z ->
  same_ids h0 (w_heap w) ->
  stuck_inv h0 k e w t ->
  stuck_inv h0 k e (fst (step_thread now w t)) (snd (step_thread now w t)).
Proof.
  unfold stuck_inv. intros Hlt Hid Hst.
  step_cases t; rewrite ?Eph in Hst; simpl in *; try exact I; try reflexivity;
    try contradiction.
  - (* Acquiring [] *)
    destruct Hst as [Hin _]. apply elem_of_nil in Hin. contradiction.
  - (* Acquiring, success *)
    destruct Hst as [Hin Hk].
    assert (Hkl : lock_key (show_id (th_show t)) (seat_id (w_heap w l))
                  = seat_lock_key h0 (th_show t) l)
      by (unfold seat_lock_key; destruct (Hid l) as [-> _]; reflexivity).
    rewrite Hkl in Eacq.
    destruct (decide (seat_lock_key h0 (th_show t) l = k)) as [Heq|Hne].
    + rewrite Heq in Eacq.
      destruct (acquireLock_spec now (w_store w) k (th_token t)) as [_ [_ H3]].
      rewrite (H3 e Hk Hlt) in Eacq. discriminate.
    + apply acquireLock_true in Eacq. subst st'. split.
      * apply elem_of_cons in Hin as [Hin|Hin]; [congruence|exact Hin].
      * rewrite lookup_insert_ne by exact Hne. exact Hk.
  - (* Done *)
    rewrite Eph. exact Hst.
Qed.

(** C10: the unlock loop of the contention path deletes the key of every
    selected seat, not only the ones this call acquired. Whenever a
    selected seat's key holds a live entry of another token for the whole
    call, the call fails with the contention error and, on return, that
    entry (and every other selected seat's key) is gone from the store. *)
Theorem contention_cleanup_deletes_foreign_lock (clock : nat -> Z) (w0 : World)
  (u : User) (sh : Show) (ids : list string) (tok bid : string) (lc : nat) (e : entry) :
  lc ∈ selectSeats (w_heap w0) sh ids ->
  w_store w0 !! seat_lock_key (w_heap w0) sh lc = Some e ->
  value e <> tok ->
  (forall j, (clock j < expiresAt e)%Z) ->
  (exists sn, phase_of (bookSeats clock w0 u sh ids tok bid) = Done (ErrContention sn)) /\
  w_store (fst (bookSeats clock w0 u sh ids tok bid)) !! seat_lock_key (w_heap w0) sh lc = None /\
  (forall l, l ∈ selectSeats (w_heap w0) sh ids ->
     w_store (fst (bookSeats clock w0 u sh ids tok bid)) !! seat_lock_key (w_heap w0) sh l = None).
Proof.
  intros Hlc He _ Hclock.
  set (k := seat_lock_key (w_heap w0) sh lc).
  assert (Hinv : cleanup_inv (w_heap w0) (fst (bookSeats clock w0 u sh ids tok bid))
                   (snd (bookSeats clock w0 u sh ids tok bid)) /\
                 stuck_inv (w_heap w0) k e (fst (bookSeats clock w0 u sh ids tok bid))
                   (snd (bookSeats clock w0 u sh ids tok bid))).
  { unfold bookSeats.
    apply (run_invariant (fun w t => cleanup_inv (w_heap w0) w t /\ stuck_inv (w_heap w0) k e w t)).
    - intros j w t [Hc Hs]. split; [apply step_cleanup; exact Hc|].
      apply step_stuck; [apply Hclock|apply Hc|exact Hs].
    - split; [apply cleanup_start|]. split; [|exact He].
      apply list_elem_of_In, in_map_iff. exists lc. split; [reflexivity|].
      apply list_elem_of_In. exact Hlc. }
  destruct Hinv as [[_ Hc] Hs].
  destruct (bookSeats_fields clock w0 u sh ids tok bid) as (_ & Hsh & _ & _ & Hsel).
  destruct (bookSeats_done clock w0 u sh ids tok bid) as [r Hr].
  unfold phase_of in Hr. unfold stuck_inv in Hs. rewrite Hr in Hs, Hc.
  destruct (Hc Hs) as [[c [_ Hrc]] Hcl].
  rewrite Hsh, Hsel in Hcl.
  split; [exists (seatNumber (w_heap w0 c)); unfold phase_of; rewrite Hr, Hrc; reflexivity|].
  split; [apply Hcl, Hlc|exact Hcl].
Qed.

Lemma contention_cleanup_deletes_foreign_lock_witness :
  1 ∈ selectSeats (w_heap world_after_user1) show1 ["s2"; "s3"] /\
  w_store world_after_user1 !! seat_lock_key (w_heap world_after_user1) show1 1
    = Some (mkEntry "tok1" 3000) /\
  value (mkEntry "tok1" 3000) <> "tok2" /\
  (forall j, (clock0 j < expiresAt (mkEntry "tok1" 3000))%Z) /\
  ((exists sn, phase_of (bookSeats clock0 world_after_user1 user2 show1 ["s2"; "s3"] "tok2" "b2")
               = Done (ErrContention sn)) /\
   w_store (fst (bookSeats clock0 world_after_user1 user2 show1 ["s2"; "s3"] "tok2" "b2"))
     !! seat_lock_key (w_heap world_after_user1) show1 1 = None /\
   (forall l, l ∈ selectSeats (w_heap world_after_user1) show1 ["s2"; "s3"] ->
      w_store (fst (bookSeats clock0 world_after_user1 user2 show1 ["s2"; "s3"] "tok2" "b2"))
        !! seat_lock_key (w_heap world_after_user1) show1 l = None)).
Proof.
  assert (H1 : 1 ∈ selectSeats (w_heap world_after_user1) show1 ["s2"; "s3"]).
  { apply list_elem_of_In. vm_compute. auto. }
  assert (H2 : w_store world_after_user1 !! seat_lock_key (w_heap world_after_user1) show1 1
               = Some (mkEntry "tok1" 3000)) by (vm_compute; reflexivity).
  assert (H3 : value (mkEntry "tok1" 3000) <> "tok2") by (simpl; discriminate).
  assert (H4 : forall j, (clock0 j < expiresAt (mkEntry "tok1" 3000))%Z)
    by (intros j; unfold clock0; simpl; lia).
  split; [exact H1|split; [exact H2|split; [exact H3|split; [exact H4|]]]].
  exact (contention_cleanup_deletes_foreign_lock clock0 world_after_user1 user2 show1
           ["s2"; "s3"] "tok2" "b2" 1 (mkEntry "tok1" 3000) H1 H2 H3 H4).
Defined.

(** *** Lock release at the end of a call *)

(** C1 (code bug): the [finally] loop deletes [`seat_lock:${seat.id}`],
    not the key [`seat_lock:${show.id}:${seat.id}`] the locks were taken
    under, so a booking call returns with its locks still live; so does a
    call failing with 'One or more seats already booked.' (here at time
    5000, after the first call's leases expired). *)
Theorem bookSeats_finally_leaves_locks :
  let r1 := bookSeats clock0 demo_world user1 show1 ["s1"; "s2"] "tok1" "b1" in
  let r2 := bookSeats (fun _ => 5000%Z) (fst r1) user2 show1 ["s2"; "s3"] "tok2" "b2" in
  phase_of r1 = Done (OkBooking (mkBooking "b1" user1 show1 [0; 1] 600 CONFIRMED)) /\
  w_store (fst r1) !! "seat_lock:show1:s1" = Some (mkEntry "tok1" 3000) /\
  w_store (fst r1) !! "seat_lock:show1:s2" = Some (mkEntry "tok1" 3000) /\
  DummyRedis.get 0 (w_store (fst r1)) "seat_lock:show1:s1" = Some "tok1" /\
  phase_of r2 = Done ErrUnavailable /\
  w_store (fst r2) !! "seat_lock:show1:s2" = Some (mkEntry "tok2" 8000) /\
  w_store (fst r2) !! "seat_lock:show1:s3" = Some (mkEntry "tok2" 8000).
Proof. vm_compute. repeat split. Qed.

(** *** What a call returns and commits *)

Lemma existsb_false_forall {A} (f : A -> bool) (l : list A) :
  existsb f l = false -> forall x, x ∈ l -> f x = false.
Proof.
  intros H x Hx. destruct (f x) eqn:Hf; [|reflexivity].
  exfalso. assert (existsb f l = true) as Ht; [|congruence].
  apply existsb_exists. exists x. split; [apply list_elem_of_In; exact Hx|exact Hf].
Qed.

Lemma step_ok_inv (now : Z) (w : World) (t : thread) :
  ok_inv t -> ok_inv (snd (step_thread now w t)).
Proof.
  unfold ok_inv. intros H b.
  step_cases t; simpl; intros Hb; try discriminate;
    first [injection Hb as <-; reflexivity
          |apply H; rewrite ?Eph; simpl; rewrite ?Eph in Hb; exact Hb].
Qed.

Lemma step_effect (w0 : World) (now : Z) (w : World) (t : thread) :
  NoDup (th_selected t) ->
  effect_inv w0 w t -> effect_inv w0 (fst (step_thread now w t)) (snd (step_thread now w t)).
Proof.
  unfold effect_inv. intros Hnd H.
  step_cases t; rewrite ?Eph in H; simpl in *; try exact H.
  - (* Commit, book succeeded *)
    destruct H as [Hh Hb].
    pose proof (existsb_false_forall _ _ Eex) as Hav.
    assert (Hav' : forall l, l ∈ th_selected t -> is_available (w_heap w l) = true).
    { intros l Hl. specialize (Hav l Hl). cbv beta in Hav. destruct (is_available (w_heap w l)); simpl in Hav; [reflexivity|discriminate]. }
    destruct (book_all_nodup (w_heap w) (th_selected t) Hnd Hav') as [_ Hform].
    rewrite Ebk in Hform. simpl in Hform. rewrite Hh in Hform, Hav'.
    split; [|split].
    + intros l Hl. specialize (Hav' l Hl). unfold is_available in Hav'.
      destruct (status (w_heap w0 l)); [reflexivity|discriminate].
    + exact Hform.
    + rewrite Hb. reflexivity.
  - (* Commit, book threw *)
    pose proof (existsb_false_forall _ _ Eex) as Hav.
    assert (Hav' : forall l, l ∈ th_selected t -> is_available (w_heap w l) = true).
    { intros l Hl. specialize (Hav l Hl). cbv beta in Hav. destruct (is_available (w_heap w l)); simpl in Hav; [reflexivity|discriminate]. }
    destruct (book_all_nodup (w_heap w) (th_selected t) Hnd Hav') as [Hok _].
    rewrite Ebk in Hok. discriminate.
  - (* Done *)
    rewrite Eph. exact H.
Qed.

Lemma bookSeats_ok_inv (clock : nat -> Z) (w0 : World) (u : User) (sh : Show)
  (ids : list string) (tok bid : string) :
  ok_inv (snd (bookSeats clock w0 u sh ids tok bid)).
Proof.
  unfold bookSeats.
  apply (run_invariant (fun _ t => ok_inv t)); [intros j w t; apply step_ok_inv|].
  unfold ok_inv. simpl. discriminate.
Qed.

(** C7 (counterexample): an id that names no seat of the screen is
    dropped, and the call books the other seat alone. *)
Lemma bookSeats_unknown_id_underbooks :
  phase_of (bookSeats clock0 demo_world user1 show1 ["s1"; "zz"] "tok1" "b1")
    = Done (OkBooking (mkBooking "b1" user1 show1 [0] 300 CONFIRMED)) /\
  length [0] < length ["s1"; "zz"].
Proof. split; [vm_compute; reflexivity|simpl; lia]. Qed.

(** C7 (amended): requested ids are resolved by filtering the screen's
    seats; unresolved ids are dropped without error, and a returned
    booking holds exactly the screen's seats whose id was requested, in
    screen order, priced for that many seats (which can be fewer than the
    number of requested ids). *)
Theorem bookSeats_booking_seats (clock : nat -> Z) (w0 : World) (u : User) (sh : Show)
  (ids : list string) (tok bid : string) (b : Booking) :
  phase_of (bookSeats clock w0 u sh ids tok bid) = Done (OkBooking b) ->
  b_seats b = selectSeats (w_heap w0) sh ids /\
  totalPrice b = (Z.of_nat (length (b_seats b)) * pricePerSeat sh)%Z /\
  b_status b = CONFIRMED /\ booking_id b = bid /\ b_user b = u /\ b_show b = sh.
Proof.
  intros Hd. pose proof (bookSeats_ok_inv clock w0 u sh ids tok bid) as Hok.
  destruct (bookSeats_fields clock w0 u sh ids tok bid) as (Hu & Hsh & _ & Hbid & Hsel).
  unfold ok_inv, phase_of in *. rewrite Hd in Hok. simpl in Hok.
  rewrite (Hok b eq_refl). simpl. rewrite Hu, Hsh, Hbid, Hsel. repeat split.
Qed.

Lemma bookSeats_booking_seats_witness :
  phase_of (bookSeats clock0 demo_world user1 show1 ["s1"; "zz"] "tok1" "b1")
    = Done (OkBooking booking_s1) /\
  b_seats booking_s1
    = selectSeats (w_heap demo_world) show1 ["s1"; "zz"] /\
  totalPrice booking_s1
    = (Z.of_nat (length (b_seats booking_s1))
       * pricePerSeat show1)%Z /\
  b_status booking_s1 = CONFIRMED /\
  booking_id booking_s1 = "b1" /\
  b_user booking_s1 = user1 /\
  b_show booking_s1 = show1.
Proof.
  assert (H : phase_of (bookSeats clock0 demo_world user1 show1 ["s1"; "zz"] "tok1" "b1")
              = Done (OkBooking booking_s1))
    by (vm_compute; reflexivity).
  split; [exact H|].
  exact (bookSeats_booking_seats clock0 demo_world user1 show1 ["s1"; "zz"] "tok1" "b1" _ H).
Defined.

(** C3 (counterexample): on a screen that lists the same seat object twice,
    when the lease of its first acquisition has run out by the second one
    (here each step reads a clock [LOCK_TIMEOUT] later), the availability
    check passes, [seat.book()] throws on the second occurrence, and the
    call fails with the seat left booked and no booking recorded. *)
Lemma bookSeats_repeated_seat_partial :
  let r := bookSeats slow_clock demo_world user1 show_dup ["s1"] "tok1" "b1" in
  status (w_heap demo_world 0) = AVAILABLE /\
  phase_of r = Done ErrAlreadyBooked /\
  status (w_heap (fst r) 0) = BOOKED /\
  bookings (fst r) = [].
Proof. vm_compute. repeat split. Qed.

Lemma effect_start (w0 : World) (u : User) (sh : Show) (ids : list string)
  (tok bid : string) :
  effect_inv w0 w0 (start_call (w_heap w0) u sh ids tok bid).
Proof. split; reflexivity. Qed.

(** C3 (amended): for a show whose screen lists each seat object once, a
    call run to its return is all-or-nothing: either it returns a
    Confirmed booking of exactly its selected seats, all of which were
    Available and are now Booked, no other seat changed and that booking
    was appended to the store; or it fails, no seat changed and the
    booking store is unchanged. *)
Theorem bookSeats_all_or_nothing (clock : nat -> Z) (w0 : World) (u : User)
  (sh : Show) (ids : list string) (tok bid : string) :
  NoDup (seats (screen sh)) ->
  (exists b,
     phase_of (bookSeats clock w0 u sh ids tok bid) = Done (OkBooking b) /\
     b_status b = CONFIRMED /\ b_seats b = selectSeats (w_heap w0) sh ids /\
     (forall l, l ∈ selectSeats (w_heap w0) sh ids ->
        status (w_heap w0 l) = AVAILABLE /\
        w_heap (fst (bookSeats clock w0 u sh ids tok bid)) l = seat_booked (w_heap w0 l)) /\
     (forall l, l ∉ selectSeats (w_heap w0) sh ids ->
        w_heap (fst (bookSeats clock w0 u sh ids tok bid)) l = w_heap w0 l) /\
     bookings (fst (bookSeats clock w0 u sh ids tok bid)) = (bookings w0 ++ [b])%list)
  \/
  (exists err,
     phase_of (bookSeats clock w0 u sh ids tok bid) = Done err /\
     (forall b, err <> OkBooking b) /\
     w_heap (fst (bookSeats clock w0 u sh ids tok bid)) = w_heap w0 /\
     bookings (fst (bookSeats clock w0 u sh ids tok bid)) = bookings w0).
Proof.
  intros Hnd.
  assert (Hsel_nd : NoDup (selectSeats (w_heap w0) sh ids)) by (apply NoDup_filter, Hnd).
  destruct (bookSeats_fields clock w0 u sh ids tok bid) as (_ & _ & _ & _ & Hsel).
  assert (Heff : effect_inv w0 (fst (bookSeats clock w0 u sh ids tok bid))
                   (snd (bookSeats clock w0 u sh ids tok bid))).
  { unfold bookSeats.
    apply (run_invariant (fun w t => th_selected t = selectSeats (w_heap w0) sh ids /\
                                     effect_inv w0 w t)); [|split; [reflexivity|apply effect_start]].
    intros j w t [Hs He]. split.
    - destruct (step_fields (clock j) w t) as (_ & _ & _ & _ & ->). exact Hs.
    - apply step_effect; [rewrite Hs; exact Hsel_nd|exact He]. }
  pose proof (bookSeats_ok_inv clock w0 u sh ids tok bid) as Hok.
  destruct (bookSeats_done clock w0 u sh ids tok bid) as [r Hr].
  unfold effect_inv, ok_inv, phase_of in *. rewrite Hr in Heff, Hok. simpl in Heff, Hok.
  rewrite Hsel in Heff, Hok.
  destruct r as [b| sn | |].
  - left. exists b. pose proof (Hok b eq_refl) as Hbeq.
    destruct Heff as [Hav [Hh Hb]].
    split; [exact Hr|]. split; [rewrite Hbeq; reflexivity|].
    split; [rewrite Hbeq; reflexivity|].
    split; [|split; [|exact Hb]].
    + intros l Hl. split; [apply Hav, Hl|]. rewrite Hh. destruct (decide _); [reflexivity|contradiction].
    + intros l Hl. rewrite Hh. destruct (decide _); [contradiction|reflexivity].
  - right. exists (ErrContention sn). split; [exact Hr|]. split; [discriminate|exact Heff].
  - right. exists ErrUnavailable. split; [exact Hr|]. split; [discriminate|exact Heff].
  - contradiction.
Qed.

Lemma bookSeats_all_or_nothing_witness :
  NoDup (seats (screen show1)) /\
  ((exists b,
     phase_of (bookSeats clock0 demo_world user1 show1 ["s1"] "tok1" "b1") = Done (OkBooking b) /\
     b_status b = CONFIRMED /\ b_seats b = selectSeats (w_heap demo_world) show1 ["s1"] /\
     (forall l, l ∈ selectSeats (w_heap demo_world) show1 ["s1"] ->
        status (w_heap demo_world l) = AVAILABLE /\
        w_heap (fst (bookSeats clock0 demo_world user1 show1 ["s1"] "tok1" "b1")) l
          = seat_booked (w_heap demo_world l)) /\
     (forall l, l ∉ selectSeats (w_heap demo_world) show1 ["s1"] ->
        w_heap (fst (bookSeats clock0 demo_world user1 show1 ["s1"] "tok1" "b1")) l
          = w_heap demo_world l) /\
     bookings (fst (bookSeats clock0 demo_world user1 show1 ["s1"] "tok1" "b1"))
       = (bookings demo_world ++ [b])%list)
  \/
  (exists err,
     phase_of (bookSeats clock0 demo_world user1 show1 ["s1"] "tok1" "b1") = Done err /\
     (forall b, err <> OkBooking b) /\
     w_heap (fst (bookSeats clock0 demo_world user1 show1 ["s1"] "tok1" "b1")) = w_heap demo_world /\
     bookings (fst (bookSeats clock0 demo_world user1 show1 ["s1"] "tok1" "b1")) = bookings demo_world)).
Proof.
  assert (H : NoDup (seats (screen show1))) by (simpl; repeat constructor; set_solver).
  split; [exact H|].
  exact (bookSeats_all_or_nothing clock0 demo_world user1 show1 ["s1"] "tok1" "b1" H).
Defined.

(** *** Concurrent calls *)

Lemma step_keeps_booked (now : Z) (w : World) (t : thread) (x : nat) :
  status (w_heap w x) = BOOKED -> status (w_heap (fst (step_thread now w t)) x) = BOOKED.
Proof.
  intros Hb. step_cases t; try exact Hb;
    pose proof (book_all_keeps_booked (w_heap w) (th_selected t) x Hb) as H;
    rewrite Ebk in H; exact H.
Qed.

Lemma step_committed_stays (now : Z) (w : World) (t : thread) :
  committed_ok t ->
  committed_ok (snd (step_thread now w t)) /\ w_heap (fst (step_thread now w t)) = w_heap w.
Proof.
  unfold committed_ok. intros [b Hb].
  step_cases t; rewrite ?Eph in Hb; simpl in Hb; try discriminate;
    (split; [exists b; rewrite ?Eph; exact Hb|reflexivity]).
Qed.

Lemma step_newly_committed (now : Z) (w : World) (t : thread) :
  ~ committed_ok t -> committed_ok (snd (step_thread now w t)) ->
  (forall l, l ∈ th_selected t -> is_available (w_heap w l) = true) /\
  (forall l, l ∈ th_selected t -> status (w_heap (fst (step_thread now w t)) l) = BOOKED).
Proof.
  unfold committed_ok. intros Hn.
  step_cases t; intros [b Hb]; simpl in Hb; try discriminate;
    try (exfalso; apply Hn; exists b; rewrite ?Eph in Hb; exact Hb).
  (* the [try] block that books *)
  split.
  - intros l Hl. pose proof (existsb_false_forall _ _ Eex l Hl) as Hav. cbv beta in Hav.
    destruct (is_available (w_heap w l)); [reflexivity|discriminate].
  - pose proof (book_all_ok_booked (w_heap w) (th_selected t)) as H.
    rewrite Ebk in H. exact (H eq_refl).
Qed.

Lemma step_no_already_booked (now : Z) (w : World) (t : thread) :
  NoDup (th_selected t) ->
  result_of (th_phase t) <> Some ErrAlreadyBooked ->
  result_of (th_phase (snd (step_thread now w t))) <> Some ErrAlreadyBooked.
Proof.
  intros Hnd Hr. step_cases t; rewrite ?Eph in Hr; try discriminate; try exact Hr;
    try (rewrite Eph; exact Hr).
  (* the [try] block in which [seat.book()] threw *)
  exfalso.
  assert (Hav : forall l, l ∈ th_selected t -> is_available (w_heap w l) = true).
  { intros l Hl. pose proof (existsb_false_forall _ _ Eex l Hl) as Hav. cbv beta in Hav.
    destruct (is_available (w_heap w l)); [reflexivity|discriminate]. }
  destruct (book_all_nodup (w_heap w) (th_selected t) Hnd Hav) as [Hok _].
  rewrite Ebk in Hok. discriminate.
Qed.

Lemma lookup_insert_cases {A} (ts : list A) (k i : nat) (x u : A) :
  <[k := x]> ts !! i = Some u -> (i = k /\ u = x /\ k < length ts) \/ (i <> k /\ ts !! i = Some u).
Proof.
  intros H. destruct (decide (i = k)) as [->|Hne].
  - left. destruct (decide (k < length ts)) as [Hlt|Hge].
    + rewrite list_lookup_insert_eq in H by exact Hlt. injection H as <-. auto.
    + rewrite list_insert_ge in H by lia. apply lookup_lt_Some in H. lia.
  - right. rewrite list_lookup_insert_ne in H by congruence. auto.
Qed.

Lemma lookup_map_Some {A B} (f : A -> B) (l : list A) (i : nat) (y : B) :
  map f l !! i = Some y -> exists x, l !! i = Some x /\ y = f x.
Proof.
  induction l as [|a l IH] in i |- *; simpl; [discriminate|].
  destruct i as [|i]; simpl; [intros H; injection H as <-; eauto|apply IH].
Qed.

Lemma sys_inv_start (h0 : nat -> Seat) (w0 : World) (reqs : list call_req) :
  sys_inv h0 reqs w0 (start_all h0 reqs).
Proof.
  unfold start_all. split; [apply length_map|].
  split; [|split; [|split]].
  - intros i t r Ht Hr. apply lookup_map_Some in Ht as [r' [Hr' ->]].
    rewrite Hr in Hr'. injection Hr' as <-. reflexivity.
  - intros i t Ht [b Hb]. apply lookup_map_Some in Ht as [r' [_ ->]]. discriminate.
  - intros i j ti tj _ Hti _ [b Hb]. apply lookup_map_Some in Hti as [r' [_ ->]]. discriminate.
  - intros i t Ht _. apply lookup_map_Some in Ht as [r' [_ ->]]. simpl. discriminate.
Qed.

Lemma committed_ok_dec (t : thread) : {committed_ok t} + {~ committed_ok t}.
Proof.
  unfold committed_ok.
  destruct (result_of (th_phase t)) as [[b| | |]|];
    try (left; exists b; reflexivity); right; intros [b' Hb']; discriminate.
Qed.

(** The case of [sys_inv]'s disjointness where the stepping call is one of
    the two. *)
Lemma step_disjoint (now : Z) (w : World) (t tj : thread) :
  (forall l, l ∈ th_selected tj -> committed_ok tj -> status (w_heap w l) = BOOKED) ->
  (committed_ok t -> committed_ok tj ->
     forall l, l ∈ th_selected t -> l ∈ th_selected tj -> False) ->
  committed_ok (snd (step_thread now w t)) -> committed_ok tj ->
  forall l, l ∈ th_selected (snd (step_thread now w t)) -> l ∈ th_selected tj -> False.
Proof.
  intros Hbooked Hold Hok Hokj l Hl Hlj.
  destruct (step_fields now w t) as (_ & _ & _ & _ & Hsel). rewrite Hsel in Hl.
  destruct (committed_ok_dec t) as [Hc|Hn].
  - exact (Hold Hc Hokj l Hl Hlj).
  - destruct (step_newly_committed now w t Hn Hok) as [Hav _].
    specialize (Hav l Hl). unfold is_available in Hav.
    rewrite (Hbooked l Hlj Hokj) in Hav. discriminate.
Qed.

Lemma sys_inv_step (h0 : nat -> Seat) (reqs : list call_req) (w : World)
  (ts : list thread) (k : nat) (t : thread) (now : Z) :
  ts !! k = Some t ->
  sys_inv h0 reqs w ts ->
  sys_inv h0 reqs (fst (step_thread now w t)) (<[k := snd (step_thread now w t)]> ts).
Proof.
  intros Hk (Hlen & Hsel & Hbk & Hdis & Hab).
  destruct (step_fields now w t) as (_ & _ & _ & _ & Hs).
  split; [rewrite length_insert; exact Hlen|].
  split; [|split; [|split]].
  - intros i u r Hu Hr.
    apply lookup_insert_cases in Hu as [[-> [-> _]]|[_ Hu]].
    + rewrite Hs. exact (Hsel k t r Hk Hr).
    + exact (Hsel i u r Hu Hr).
  - intros i u Hu Hok l Hl.
    apply lookup_insert_cases in Hu as [[-> [-> _]]|[_ Hu]].
    + rewrite Hs in Hl. destruct (committed_ok_dec t) as [Hc|Hn].
      * destruct (step_committed_stays now w t Hc) as [_ ->]. exact (Hbk k t Hk Hc l Hl).
      * destruct (step_newly_committed now w t Hn Hok) as [_ HB]. exact (HB l Hl).
    + apply step_keeps_booked. exact (Hbk i u Hu Hok l Hl).
  - intros i j ti tj Hij Hti Htj Hoki Hokj l Hli Hlj.
    apply lookup_insert_cases in Hti as [[-> [-> _]]|[Hik Hti]];
      apply lookup_insert_cases in Htj as [[-> [-> _]]|[Hjk Htj]].
    + congruence.
    + exact (step_disjoint now w t tj (fun l H Hc => Hbk j tj Htj Hc l H)
               (fun Hc Hc' l' H1 H2 => Hdis k j t tj (not_eq_sym Hjk) Hk Htj Hc Hc' l' H1 H2)
               Hoki Hokj l Hli Hlj).
    + exact (step_disjoint now w t ti (fun l H Hc => Hbk i ti Hti Hc l H)
               (fun Hc Hc' l' H1 H2 => Hdis k i t ti (not_eq_sym Hik) Hk Hti Hc Hc' l' H1 H2)
               Hokj Hoki l Hlj Hli).
    + exact (Hdis i j ti tj Hij Hti Htj Hoki Hokj l Hli Hlj).
  - intros i u Hu Hnd.
    apply lookup_insert_cases in Hu as [[-> [-> _]]|[_ Hu]].
    + rewrite Hs in Hnd. apply step_no_already_booked; [exact Hnd|exact (Hab k t Hk Hnd)].
    + exact (Hab i u Hu Hnd).
Qed.

Lemma reachable_inv (h0 : nat -> Seat) (reqs : list call_req) (c c' : World * list thread) :
  reachable c c' -> sys_inv h0 reqs (fst c) (snd c) -> sys_inv h0 reqs (fst c') (snd c').
Proof.
  unfold reachable. induction 1 as [c|c1 c2 c3 Hst _ IH]; [auto|].
  intros Hinv. apply IH.
  destruct Hst as [w ts i t now w' t' Hi Hstep]. simpl in *.
  pose proof (sys_inv_step h0 reqs w ts i t now Hi Hinv) as H.
  rewrite Hstep in H. exact H.
Qed.

Lemma includes_elem (ids : list string) (x : string) : x ∈ ids -> includes ids x = true.
Proof.
  intros Hx. unfold includes. apply existsb_exists. exists x.
  split; [apply list_elem_of_In; exact Hx|apply String.eqb_refl].
Qed.

(** Running one call alone for [n] steps is an execution of the system. *)
Lemma run_reachable (n : nat) (clock : nat -> Z) (j : nat) (w : World)
  (ts : list thread) (i : nat) (t : thread) :
  ts !! i = Some t ->
  reachable (w, ts) (fst (run n clock j w t), <[i := snd (run n clock j w t)]> ts).
Proof.
  induction n as [|n IH] in j, w, ts, t |- *; intros Hi; simpl.
  - rewrite list_insert_id by exact Hi. apply rtc_refl.
  - destruct (step_thread (clock j) w t) as [w' t'] eqn:Hstep.
    eapply rtc_l; [eapply SysStep; [exact Hi|exact Hstep]|].
    assert (Hlt : i < length ts) by (apply lookup_lt_Some with t; exact Hi).
    pose proof (IH (S j) w' (<[i := t']> ts) t') as H.
    rewrite list_insert_insert, decide_True in H by reflexivity. apply H.
    apply list_lookup_insert_eq. exact Hlt.
Qed.

(** C2 (counterexample): on a screen listing seat [s1] twice, the call
    for [s1], [s2] whose lease on [s1] has run out between its two
    acquisitions passes the availability check and throws 'Seat is already
    booked' while booking; the other call then books the shared seat [s2]
    and succeeds. The failing call's error is neither the contention error
    nor 'One or more seats already booked.'. *)
Lemma concurrent_repeated_seat_other_error :
  reachable (demo_world, start_all demo_heap rep_reqs)
    (fst rep_run_A, [snd rep_run_A; snd rep_run_B]) /\
  1 ∈ th_selected (snd rep_run_A) /\ 1 ∈ th_selected (snd rep_run_B) /\
  th_phase (snd rep_run_A) = Done (OkBooking (mkBooking "bA" user1 show_rep [1] 300 CONFIRMED)) /\
  th_phase (snd rep_run_B) = Done ErrAlreadyBooked.
Proof.
  split.
  - eapply rtc_trans.
    + apply (run_reachable 10 slow_clock 0 demo_world (start_all demo_heap rep_reqs) 1
               (start_call demo_heap user2 show_rep ["s1"; "s2"] "tokB" "bB")).
      reflexivity.
    + pose proof (run_reachable 10 (fun _ => 20000%Z) 0 (fst rep_run_B)
                    (<[1 := snd rep_run_B]> (start_all demo_heap rep_reqs)) 0
                    (start_call demo_heap user1 show_rep ["s2"] "tokA" "bA") eq_refl) as H.
      exact H.
  - assert (EA : th_selected (snd rep_run_A) = [1]) by (vm_compute; reflexivity).
    assert (EB : th_selected (snd rep_run_B) = [0; 0; 1]) by (vm_compute; reflexivity).
    rewrite EA, EB, !list_elem_of_In. simpl.
    split; [tauto|]. split; [tauto|]. split; vm_compute; reflexivity.
Qed.

(** C2: in any interleaving of concurrent bookSeats calls, started on the
    seat objects of the initial world, two calls that both request the id
    of a seat [l] of their show's screen both select [l], and at most one of
    them books it (returns, or is releasing its locks after, a booking).
    When the screen of the second call lists each seat object once and the
    first call has booked, the second call's result, once it has one, is
    the lock-contention error or 'One or more seats already booked.'. *)
Theorem concurrent_shared_seat_exclusive (w0 : World) (reqs : list call_req)
  (w : World) (ts : list thread) (i j : nat) (ri rj : call_req) (x : nat) :
  reachable (w0, start_all (w_heap w0) reqs) (w, ts) ->
  i <> j -> reqs !! i = Some ri -> reqs !! j = Some rj ->
  x ∈ seats (screen (c_show ri)) -> x ∈ seats (screen (c_show rj)) ->
  seat_id (w_heap w0 x) ∈ c_ids ri -> seat_id (w_heap w0 x) ∈ c_ids rj ->
  exists ti tj, ts !! i = Some ti /\ ts !! j = Some tj /\
    x ∈ th_selected ti /\ x ∈ th_selected tj /\
    ~ (committed_ok ti /\ committed_ok tj) /\
    (NoDup (seats (screen (c_show rj))) -> committed_ok ti ->
       forall r, result_of (th_phase tj) = Some r ->
       (exists sn, r = ErrContention sn) \/ r = ErrUnavailable).
Proof.
  intros Hreach Hij Hri Hrj Hxi Hxj Hidi Hidj.
  pose proof (reachable_inv (w_heap w0) reqs _ _ Hreach (sys_inv_start (w_heap w0) w0 reqs))
    as [Hlen [Hsel [_ [Hdisj Hnab]]]].
  simpl in Hlen, Hsel, Hdisj, Hnab.
  destruct (lookup_lt_is_Some_2 ts i) as [ti Hti].
  { rewrite Hlen. apply lookup_lt_Some with ri. exact Hri. }
  destruct (lookup_lt_is_Some_2 ts j) as [tj Htj].
  { rewrite Hlen. apply lookup_lt_Some with rj. exact Hrj. }
  assert (Hsi : x ∈ th_selected ti).
  { rewrite (Hsel i ti ri Hti Hri). unfold selectSeats.
    apply list_elem_of_filter. split; [apply includes_elem; exact Hidi|exact Hxi]. }
  assert (Hsj : x ∈ th_selected tj).
  { rewrite (Hsel j tj rj Htj Hrj). unfold selectSeats.
    apply list_elem_of_filter. split; [apply includes_elem; exact Hidj|exact Hxj]. }
  exists ti, tj. split; [exact Hti|]. split; [exact Htj|].
  split; [exact Hsi|]. split; [exact Hsj|]. split.
  - intros [Hci Hcj]. exact (Hdisj i j ti tj Hij Hti Htj Hci Hcj x Hsi Hsj).
  - intros Hnd Hci r Hr.
    assert (Hndj : NoDup (th_selected tj)).
    { rewrite (Hsel j tj rj Htj Hrj). unfold selectSeats. apply NoDup_filter. exact Hnd. }
    destruct r as [b|sn| |].
    + exfalso. exact (Hdisj i j ti tj Hij Hti Htj Hci (ex_intro _ b Hr) x Hsi Hsj).
    + left. exists sn. reflexivity.
    + right. reflexivity.
    + exfalso. exact (Hnab j tj Htj Hndj Hr).
Qed.

Lemma concurrent_shared_seat_exclusive_witness :
  (reachable (demo_world, start_all (w_heap demo_world) demo_reqs)
     (fst demo_run2, [snd demo_run1; snd demo_run2]) /\
   0 <> 1 /\ demo_reqs !! 0 = Some req1 /\ demo_reqs !! 1 = Some req2 /\
   1 ∈ seats (screen (c_show req1)) /\ 1 ∈ seats (screen (c_show req2)) /\
   seat_id (w_heap demo_world 1) ∈ c_ids req1 /\ seat_id (w_heap demo_world 1) ∈ c_ids req2) /\
  exists ti tj, [snd demo_run1; snd demo_run2] !! 0 = Some ti /\
    [snd demo_run1; snd demo_run2] !! 1 = Some tj /\
    1 ∈ th_selected ti /\ 1 ∈ th_selected tj /\
    ~ (committed_ok ti /\ committed_ok tj) /\
    (NoDup (seats (screen (c_show req2))) -> committed_ok ti ->
       forall r, result_of (th_phase tj) = Some r ->
       (exists sn, r = ErrContention sn) \/ r = ErrUnavailable).
Proof.
  assert (Hreach : reachable (demo_world, start_all (w_heap demo_world) demo_reqs)
                     (fst demo_run2, [snd demo_run1; snd demo_run2])).
  { eapply rtc_trans.
    - apply (run_reachable 10 clock0 0 demo_world (start_all demo_heap demo_reqs) 0
               (start_call demo_heap user1 show1 ["s1"; "s2"] "tok1" "b1")).
      reflexivity.
    - exact (run_reachable 10 clock0 0 (fst demo_run1)
               (<[0 := snd demo_run1]> (start_all demo_heap demo_reqs)) 1
               (start_call demo_heap user2 show1 ["s2"; "s3"] "tok2" "b2") eq_refl). }
  assert (H1 : 1 ∈ seats (screen (c_show req1))).
  { apply list_elem_of_In. simpl. tauto. }
  assert (H2 : seat_id (w_heap demo_world 1) ∈ c_ids req1).
  { apply list_elem_of_In. simpl. tauto. }
  assert (H3 : seat_id (w_heap demo_world 1) ∈ c_ids req2).
  { apply list_elem_of_In. simpl. tauto. }
  split.
  - repeat split; first [exact Hreach | exact H1 | exact H2 | exact H3 | reflexivity | lia].
  - exact (concurrent_shared_seat_exclusive demo_world demo_reqs (fst demo_run2)
             [snd demo_run1; snd demo_run2] 0 1 req1 req2 1
             Hreach ltac:(lia) eq_refl eq_refl H1 H1 H2 H3).
Defined.

(* ------------------------------------------------------------------ *)
(** ** Further properties of the lock store and the entities *)

(** X1: after a successful [set] at time [now], [get] at time [t] returns
    the stored value while [t <= now + LOCK_TIMEOUT], and [null] after. *)
Theorem redis_get_after_set (now t : Z) (st st' : gmap string entry) (key v : string) :
  DummyRedis.set now st key v = (true, st') ->
  DummyRedis.get t st' key = if Z.ltb (now + LOCK_TIMEOUT) t then None else Some v.
Proof.
  unfold DummyRedis.set, DummyRedis.get. intros H.
  assert (Hst : st' = <[key := mkEntry v (now + LOCK_TIMEOUT)%Z]> st).
  { destruct (st !! key) as [e|]; [destruct (Z.ltb now (expiresAt e))|];
      inversion H; reflexivity. }
  subst st'. rewrite lookup_insert_eq. reflexivity.
Qed.

Lemma redis_get_after_set_witness :
  DummyRedis.set 0 ∅ "k" "v" = (true, <["k" := mkEntry "v" 3000]> ∅) /\
  DummyRedis.get 3000 (<["k" := mkEntry "v" 3000]> ∅) "k" = Some "v".
Proof.
  split; [reflexivity|].
  exact (redis_get_after_set 0 3000 ∅ _ "k" "v" eq_refl).
Defined.

(** X2: at the expiry instant of an entry the store answers both ways: [get]
    still returns the entry's value ([expiresAt < now] is false), while
    [set] no longer refuses ([expiresAt > now] is false) and overwrites the
    entry with the new value. *)
Theorem redis_expiry_instant (st : gmap string entry) (key v : string) (e : entry) :
  st !! key = Some e ->
  DummyRedis.get (expiresAt e) st key = Some (value e) /\
  DummyRedis.set (expiresAt e) st key v
    = (true, <[key := mkEntry v (expiresAt e + LOCK_TIMEOUT)%Z]> st).
Proof.
  unfold DummyRedis.get, DummyRedis.set. intros He. rewrite He.
  rewrite Z.ltb_irrefl. split; reflexivity.
Qed.

Lemma redis_expiry_instant_witness :
  (<["k" := mkEntry "tok1" 3000]> ∅ : gmap string entry) !! "k" = Some (mkEntry "tok1" 3000) /\
  DummyRedis.get 3000 (<["k" := mkEntry "tok1" 3000]> ∅) "k" = Some "tok1" /\
  DummyRedis.set 3000 (<["k" := mkEntry "tok1" 3000]> ∅) "k" "tok2"
    = (true, <["k" := mkEntry "tok2" 6000]> (<["k" := mkEntry "tok1" 3000]> ∅)).
Proof.
  assert (H : (<["k" := mkEntry "tok1" 3000]> ∅ : gmap string entry) !! "k"
              = Some (mkEntry "tok1" 3000)) by reflexivity.
  split; [exact H|].
  exact (redis_expiry_instant _ "k" "tok2" (mkEntry "tok1" 3000) H).
Defined.

(** X3: [set] and [del] on one key leave what [get] reports for every other
    key unchanged, at any time. *)
Theorem redis_other_keys (now t : Z) (st : gmap string entry) (key key' v : string) :
  key' <> key ->
  DummyRedis.get t (snd (DummyRedis.set now st key v)) key' = DummyRedis.get t st key' /\
  DummyRedis.get t (DummyRedis.del st key) key' = DummyRedis.get t st key'.
Proof.
  intros Hne. unfold DummyRedis.get, DummyRedis.set, DummyRedis.del. split.
  - destruct (st !! key) as [e|]; [destruct (Z.ltb now (expiresAt e))|]; simpl;
      rewrite ?lookup_insert_ne by congruence; reflexivity.
  - rewrite lookup_delete_ne by congruence. reflexivity.
Qed.

Lemma redis_other_keys_witness :
  "b" <> "a" /\
  DummyRedis.get 0 (snd (DummyRedis.set 0 (<["b" := mkEntry "x" 10]> ∅) "a" "v")) "b"
    = DummyRedis.get 0 (<["b" := mkEntry "x" 10]> ∅) "b" /\
  DummyRedis.get 0 (DummyRedis.del (<["b" := mkEntry "x" 10]> ∅) "a") "b"
    = DummyRedis.get 0 (<["b" := mkEntry "x" 10]> ∅) "b".
Proof.
  assert (H : "b" <> "a") by discriminate.
  split; [exact H|].
  exact (redis_other_keys 0 0 (<["b" := mkEntry "x" 10]> ∅) "a" "b" "v" H).
Defined.

(** X4: after [releaseLock(key)], [get] reports nothing for the key and
    [acquireLock(key, v)] succeeds at any time, whoever held the lock. *)
Theorem acquire_after_release (now t : Z) (st : gmap string entry) (key v : string) :
  DummyRedis.get t (releaseLock st key) key = None /\
  acquireLock now (releaseLock st key) key v
    = (true, <[key := mkEntry v (now + LOCK_TIMEOUT)%Z]> (delete key st)).
Proof.
  rewrite acquireLock_eq. unfold releaseLock, DummyRedis.del, DummyRedis.get, DummyRedis.set.
  rewrite lookup_delete_eq. split; reflexivity.
Qed.

(** [this.seats.forEach((s) => s.release())] on its own. *)
Lemma release_all_at (ls : list nat) (h : nat -> Seat) (x : nat) :
  fold_left (fun h' l => heap_upd h' l (Seat_release (h' l))) ls h x =
    if decide (x ∈ ls) then Seat_release (h x) else h x.
Proof.
  induction ls as [|a ls IH] in h |- *; simpl.
  - destruct (decide (x ∈ [])) as [Hx|]; [apply elem_of_nil in Hx; contradiction|reflexivity].
  - rewrite IH. unfold heap_upd.
    destruct (Nat.eqb_spec x a) as [->|Hne].
    + destruct (decide (a ∈ a :: ls)) as [_|Hn]; [|exfalso; apply Hn; apply elem_of_cons; left; reflexivity].
      destruct (decide (a ∈ ls)); reflexivity.
    + destruct (decide (x ∈ ls)) as [Hx|Hx];
        destruct (decide (x ∈ a :: ls)) as [Hx'|Hx']; try reflexivity;
        [exfalso; apply Hx'; apply elem_of_cons; right; exact Hx|].
      apply elem_of_cons in Hx' as [Hx'|Hx']; contradiction.
Qed.

(** X6: [Booking.cancel()] makes every seat of the booking Available,
    whatever its status and whichever booking holds it, keeps the seats'
    ids and labels, leaves every other seat as it was, and sets the
    status to Cancelled, all other fields unchanged. *)
Theorem booking_cancel_effect (h : nat -> Seat) (b : Booking) :
  (forall x, x ∈ b_seats b ->
     fst (cancel h b) x = mkSeat (seat_id (h x)) (seatNumber (h x)) AVAILABLE) /\
  (forall x, x ∉ b_seats b -> fst (cancel h b) x = h x) /\
  snd (cancel h b) = mkBooking (booking_id b) (b_user b) (b_show b) (b_seats b)
                       (totalPrice b) CANCELLED.
Proof.
  unfold cancel. simpl. split; [|split; [|reflexivity]]; intros x Hx;
    rewrite release_all_at; destruct (decide (x ∈ b_seats b)); try contradiction; reflexivity.
Qed.

(** *** Seats after a successful call *)

Lemma bookSeats_effect_ok (clock : nat -> Z) (w0 : World) (u : User)
  (sh : Show) (ids : list string) (tok bid : string) (b : Booking) :
  NoDup (seats (screen sh)) ->
  phase_of (bookSeats clock w0 u sh ids tok bid) = Done (OkBooking b) ->
  b = confirm (new_Booking bid u sh (selectSeats (w_heap w0) sh ids)
        (Z.of_nat (length (selectSeats (w_heap w0) sh ids)) * pricePerSeat sh)%Z) /\
  (forall l, l ∈ selectSeats (w_heap w0) sh ids -> status (w_heap w0 l) = AVAILABLE) /\
  (forall l, w_heap (fst (bookSeats clock w0 u sh ids tok bid)) l =
     if decide (l ∈ selectSeats (w_heap w0) sh ids)
     then seat_booked (w_heap w0 l) else w_heap w0 l) /\
  bookings (fst (bookSeats clock w0 u sh ids tok bid)) = (bookings w0 ++ [b])%list.
Proof.
  intros Hnd Hr.
  assert (Hsel_nd : NoDup (selectSeats (w_heap w0) sh ids)) by (apply NoDup_filter, Hnd).
  destruct (bookSeats_fields clock w0 u sh ids tok bid) as (Hu & Hsh & _ & Hb & Hsel).
  assert (Heff : effect_inv w0 (fst (bookSeats clock w0 u sh ids tok bid))
                   (snd (bookSeats clock w0 u sh ids tok bid))).
  { unfold bookSeats.
    apply (run_invariant (fun w t => th_selected t = selectSeats (w_heap w0) sh ids /\
                                     effect_inv w0 w t)); [|split; [reflexivity|apply effect_start]].
    intros j w t [Hs He]. split.
    - destruct (step_fields (clock j) w t) as (_ & _ & _ & _ & ->). exact Hs.
    - apply step_effect; [rewrite Hs; exact Hsel_nd|exact He]. }
  pose proof (bookSeats_ok_inv clock w0 u sh ids tok bid) as Hok.
  unfold effect_inv, ok_inv, phase_of in *. rewrite Hr in Heff, Hok. simpl in Heff, Hok.
  rewrite Hsel in Heff, Hok. rewrite Hu, Hsh, Hb in Hok.
  destruct Heff as [Hav [Hh Hbk]].
  split; [exact (Hok b eq_refl)|]. split; [exact Hav|]. split; [exact Hh|exact Hbk].
Qed.

(** X7: seat state belongs to the seat objects, not to a show: after a
    successful call on a show whose screen lists each seat once, the
    available seats of any show [sh'] (for example another show on the same
    screen) are its previously available seats minus the booked ones. *)
Theorem bookSeats_available_after (clock : nat -> Z) (w0 : World) (u : User)
  (sh sh' : Show) (ids : list string) (tok bid : string) (b : Booking) :
  NoDup (seats (screen sh)) ->
  phase_of (bookSeats clock w0 u sh ids tok bid) = Done (OkBooking b) ->
  getAvailableSeats (w_heap (fst (bookSeats clock w0 u sh ids tok bid))) sh' =
    filter (fun l => l ∉ b_seats b) (getAvailableSeats (w_heap w0) sh').
Proof.
  intros Hnd Hr.
  destruct (bookSeats_effect_ok clock w0 u sh ids tok bid b Hnd Hr) as (Hb & _ & Hh & _).
  rewrite Hb. simpl. unfold getAvailableSeats. rewrite list_filter_filter.
  apply list_filter_iff. intros l. rewrite Hh.
  destruct (decide (l ∈ selectSeats (w_heap w0) sh ids)) as [Hin|Hin]; simpl; [|tauto].
  split; [discriminate|intros [Hn _]; contradiction].
Qed.

Lemma bookSeats_available_after_witness :
  NoDup (seats (screen show1)) /\
  phase_of (bookSeats clock0 demo_world user1 show1 ["s1"; "s2"] "tok1" "b1")
    = Done (OkBooking (mkBooking "b1" user1 show1 [0; 1] 600 CONFIRMED)) /\
  getAvailableSeats (w_heap (fst (bookSeats clock0 demo_world user1 show1 ["s1"; "s2"] "tok1" "b1")))
    show_dup =
    filter (fun l => l ∉ b_seats (mkBooking "b1" user1 show1 [0; 1] 600 CONFIRMED))
      (getAvailableSeats (w_heap demo_world) show_dup).
Proof.
  assert (H : NoDup (seats (screen show1))) by (simpl; repeat constructor; set_solver).
  assert (Hr : phase_of (bookSeats clock0 demo_world user1 show1 ["s1"; "s2"] "tok1" "b1")
             = Done (OkBooking (mkBooking "b1" user1 show1 [0; 1] 600 CONFIRMED)))
    by (vm_compute; reflexivity).
  split; [exact H|]. split; [exact Hr|].
  exact (bookSeats_available_after clock0 demo_world user1 show1 show_dup ["s1"; "s2"]
           "tok1" "b1" _ H Hr).
Defined.

(** X8: on a show whose screen lists each seat once, cancelling the
    booking returned by a successful call gives back exactly the seat
    objects the call started from. *)
Theorem bookSeats_then_cancel (clock : nat -> Z) (w0 : World) (u : User)
  (sh : Show) (ids : list string) (tok bid : string) (b : Booking) :
  NoDup (seats (screen sh)) ->
  phase_of (bookSeats clock w0 u sh ids tok bid) = Done (OkBooking b) ->
  forall x, fst (cancel (w_heap (fst (bookSeats clock w0 u sh ids tok bid))) b) x = w_heap w0 x.
Proof.
  intros Hnd Hr x.
  destruct (bookSeats_effect_ok clock w0 u sh ids tok bid b Hnd Hr) as (Hb & Hav & Hh & _).
  assert (Hs : b_seats b = selectSeats (w_heap w0) sh ids) by (rewrite Hb; reflexivity).
  unfold cancel. cbn [fst]. rewrite release_all_at, Hh.
  destruct (decide (x ∈ b_seats b)) as [Hin|Hin]; rewrite Hs in Hin;
    destruct (decide (x ∈ selectSeats (w_heap w0) sh ids)); try contradiction; [|reflexivity].
  unfold Seat_release, seat_booked. simpl. rewrite <- (Hav x Hin).
  destruct (w_heap w0 x); reflexivity.
Qed.

Lemma bookSeats_then_cancel_witness :
  NoDup (seats (screen show1)) /\
  phase_of (bookSeats clock0 demo_world user1 show1 ["s1"; "s2"] "tok1" "b1")
    = Done (OkBooking (mkBooking "b1" user1 show1 [0; 1] 600 CONFIRMED)) /\
  fst (cancel (w_heap (fst (bookSeats clock0 demo_world user1 show1 ["s1"; "s2"] "tok1" "b1")))
         (mkBooking "b1" user1 show1 [0; 1] 600 CONFIRMED)) 0 = w_heap demo_world 0.
Proof.
  assert (H : NoDup (seats (screen show1))) by (simpl; repeat constructor; set_solver).
  assert (Hr : phase_of (bookSeats clock0 demo_world user1 show1 ["s1"; "s2"] "tok1" "b1")
             = Done (OkBooking (mkBooking "b1" user1 show1 [0; 1] 600 CONFIRMED)))
    by (vm_compute; reflexivity).
  split; [exact H|]. split; [exact Hr|].
  exact (bookSeats_then_cancel clock0 demo_world user1 show1 ["s1"; "s2"] "tok1" "b1" _ H Hr 0).
Defined.

(** *** Interleaved calls: seats and the booking store *)

Lemma step_bookings (now : Z) (w : World) (t : thread) :
  bookings (fst (step_thread now w t)) = bookings w \/
  exists b, bookings (fst (step_thread now w t)) = (bookings w ++ [b])%list /\
    b_status b = CONFIRMED /\ b_user b = th_user t /\ b_show b = th_show t /\
    b_seats b = th_selected t /\
    totalPrice b = (Z.of_nat (length (b_seats b)) * pricePerSeat (b_show b))%Z /\
    (forall l, l ∈ b_seats b -> status (w_heap (fst (step_thread now w t)) l) = BOOKED).
Proof.
  step_cases t; try (left; reflexivity).
  right. eexists. split; [reflexivity|]. simpl.
  do 5 (split; [reflexivity|]).
  pose proof (book_all_ok_booked (w_heap w) (th_selected t)) as H.
  rewrite Ebk in H. exact (H eq_refl).
Qed.

Lemma reach_keeps_seats (c c' : World * list thread) :
  reachable c c' ->
  same_ids (w_heap (fst c)) (w_heap (fst c')) /\
  forall x, status (w_heap (fst c) x) = BOOKED -> status (w_heap (fst c') x) = BOOKED.
Proof.
  unfold reachable. induction 1 as [c|c1 c2 c3 Hst _ [IHid IHb]].
  - split; [apply same_ids_refl|auto].
  - destruct Hst as [w ts i t now w' t' Hi Hstep]. simpl in *.
    pose proof (step_same_ids now w t) as Hid.
    pose proof (step_keeps_booked now w t) as Hkb.
    rewrite Hstep in Hid, Hkb. simpl in Hid, Hkb.
    split; [exact (same_ids_trans _ _ _ Hid IHid)|].
    intros x Hx. apply IHb, Hkb, Hx.
Qed.

(** A run of the two demo calls, one after the other. *)
Lemma demo_reachable :
  reachable (demo_world, start_all (w_heap demo_world) demo_reqs)
    (fst demo_run2, [snd demo_run1; snd demo_run2]).
Proof.
  eapply rtc_trans.
  - apply (run_reachable 10 clock0 0 demo_world (start_all demo_heap demo_reqs) 0
             (start_call demo_heap user1 show1 ["s1"; "s2"] "tok1" "b1")).
    reflexivity.
  - exact (run_reachable 10 clock0 0 (fst demo_run1)
             (<[0 := snd demo_run1]> (start_all demo_heap demo_reqs)) 1
             (start_call demo_heap user2 show1 ["s2"; "s3"] "tok2" "b2") eq_refl).
Qed.

(** X9: in any interleaving of bookSeats calls no seat is ever released: a
    Booked seat stays Booked, and every seat keeps its id and label. *)
Theorem interleaving_keeps_booked (c c' : World * list thread) :
  reachable c c' ->
  (forall x, seat_id (w_heap (fst c') x) = seat_id (w_heap (fst c) x) /\
             seatNumber (w_heap (fst c') x) = seatNumber (w_heap (fst c) x)) /\
  (forall x, status (w_heap (fst c) x) = BOOKED -> status (w_heap (fst c') x) = BOOKED).
Proof.
  intros H. destruct (reach_keeps_seats c c' H) as [Hid Hb]. split; [exact Hid|exact Hb].
Qed.

Lemma interleaving_keeps_booked_witness :
  reachable (demo_world, start_all (w_heap demo_world) demo_reqs)
    (fst demo_run2, [snd demo_run1; snd demo_run2]) /\
  (forall x, seat_id (w_heap (fst demo_run2) x) = seat_id (w_heap demo_world x) /\
             seatNumber (w_heap (fst demo_run2) x) = seatNumber (w_heap demo_world x)) /\
  (forall x, status (w_heap demo_world x) = BOOKED -> status (w_heap (fst demo_run2) x) = BOOKED).
Proof.
  split; [exact demo_reachable|].
  exact (interleaving_keeps_booked _ _ demo_reachable).
Defined.

(** X10: in any interleaving of bookSeats calls the booking store only
    grows: bookings are appended, never removed or changed, and each
    appended booking is Confirmed, priced [seats.length * pricePerSeat] of
    its show, and its seats are Booked. *)
Theorem interleaving_bookings_append (c c' : World * list thread) :
  reachable c c' ->
  exists extra, bookings (fst c') = (bookings (fst c) ++ extra)%list /\
    forall b, b ∈ extra ->
      b_status b = CONFIRMED /\
      totalPrice b = (Z.of_nat (length (b_seats b)) * pricePerSeat (b_show b))%Z /\
      (forall l, l ∈ b_seats b -> status (w_heap (fst c') l) = BOOKED).
Proof.
  unfold reachable. induction 1 as [c|c1 c2 c3 Hst Hreach [extra [Hex Hall]]].
  - exists []. split; [rewrite app_nil_r; reflexivity|]. intros b Hb. apply elem_of_nil in Hb. contradiction.
  - pose proof (reach_keeps_seats c2 c3 Hreach) as [_ Hkeep].
    destruct Hst as [w ts i t now w' t' Hi Hstep]. simpl in *.
    pose proof (step_bookings now w t) as Hbk. rewrite Hstep in Hbk. simpl in Hbk.
    destruct Hbk as [Heq|[b [Heq [Hs [_ [_ [_ [Hp Hseats]]]]]]]].
    + exists extra. rewrite Hex, Heq. split; [reflexivity|exact Hall].
    + exists (b :: extra). rewrite Hex, Heq, <- app_assoc. split; [reflexivity|].
      intros b' Hb'. apply elem_of_cons in Hb' as [->|Hb']; [|apply Hall, Hb'].
      split; [exact Hs|]. split; [exact Hp|]. intros l Hl. apply Hkeep, Hseats, Hl.
Qed.

Lemma interleaving_bookings_append_witness :
  reachable (demo_world, start_all (w_heap demo_world) demo_reqs)
    (fst demo_run2, [snd demo_run1; snd demo_run2]) /\
  exists extra, bookings (fst demo_run2) = (bookings demo_world ++ extra)%list /\
    forall b, b ∈ extra ->
      b_status b = CONFIRMED /\
      totalPrice b = (Z.of_nat (length (b_seats b)) * pricePerSeat (b_show b))%Z /\
      (forall l, l ∈ b_seats b -> status (w_heap (fst demo_run2) l) = BOOKED).
Proof.
  split; [exact demo_reachable|].
  exact (interleaving_bookings_append _ _ demo_reachable).
Defined.

(** *** Interleaved calls: the lock store *)

Lemma step_todo_wf (now : Z) (w : World) (t : thread) :
  todo_wf t -> todo_wf (snd (step_thread now w t)).
Proof.
  unfold todo_wf. intros H.
  step_cases t; rewrite ?Eph in H; simpl; auto;
    try (intros x Hx; apply H; apply elem_of_cons; right; exact Hx).
  rewrite Eph. exact H.
Qed.

Lemma step_store_frame (h0 : nat -> Seat) (k : string) (now : Z) (w : World) (t : thread) :
  same_ids h0 (w_heap w) -> todo_wf t -> avoids_key h0 k t ->
  w_store (fst (step_thread now w t)) !! k = w_store w !! k.
Proof.
  unfold todo_wf, avoids_key. intros Hid Hwf Hav.
  step_cases t; rewrite ?Eph in Hwf; try reflexivity.
  - (* acquisition succeeded *)
    apply acquireLock_true in Eacq. subst st'.
    destruct (Hid l) as [Hsid _]. rewrite Hsid.
    destruct (Hav l (Hwf l ltac:(left))) as [Hne _].
    apply lookup_insert_ne. congruence.
  - (* acquisition refused *)
    apply acquireLock_false in Eacq. subst st'. reflexivity.
  - (* contention cleanup *)
    destruct (Hid l) as [Hsid _]. unfold releaseLock, DummyRedis.del. rewrite Hsid.
    destruct (Hav l (Hwf l ltac:(left))) as [Hne _].
    apply lookup_delete_ne. congruence.
  - (* finally loop *)
    destruct (Hid l) as [Hsid _]. unfold releaseLock, DummyRedis.del. rewrite Hsid.
    destruct (Hav l (Hwf l ltac:(left))) as [_ Hne].
    apply lookup_delete_ne. congruence.
Qed.

(** X11: in any interleaving of bookSeats calls, a lock key that is none
    of the keys the calls acquire or release (for each call,
    [`seat_lock:${show.id}:${seat.id}`] and [`seat_lock:${seat.id}`] of
    its selected seats) keeps its entry in the lock store. *)
Theorem interleaving_lock_frame (w0 : World) (reqs : list call_req) (w : World)
  (ts : list thread) (k : string) :
  reachable (w0, start_all (w_heap w0) reqs) (w, ts) ->
  (forall r, r ∈ reqs -> forall l, l ∈ selectSeats (w_heap w0) (c_show r) (c_ids r) ->
     k <> lock_key (show_id (c_show r)) (seat_id (w_heap w0 l)) /\
     k <> finally_key (seat_id (w_heap w0 l))) ->
  w_store w !! k = w_store w0 !! k.
Proof.
  intros Hreach Hk.
  set (h0 := w_heap w0).
  set (I := fun (c : World * list thread) =>
    same_ids h0 (w_heap (fst c)) /\ w_store (fst c) !! k = w_store w0 !! k /\
    forall i t, snd c !! i = Some t -> todo_wf t /\ avoids_key h0 k t).
  assert (Hstart : I (w0, start_all h0 reqs)).
  { split; [apply same_ids_refl|]. split; [reflexivity|].
    intros i t Ht. simpl in Ht. unfold start_all in Ht.
    apply lookup_map_Some in Ht as [r [Hr ->]].
    split; [unfold todo_wf; simpl; auto|].
    intros l Hl. apply (Hk r); [eapply list_elem_of_lookup_2; exact Hr|exact Hl]. }
  assert (Hpres : forall c c', reachable c c' -> I c -> I c').
  { unfold reachable. induction 1 as [c|c1 c2 c3 Hst _ IH]; [auto|].
    intros HI. apply IH. destruct Hst as [w1 ts1 i t now w' t' Hi Hstep].
    destruct HI as (Hid & Hst & Hth). simpl in *.
    destruct (Hth i t Hi) as [Hwf Hav].
    pose proof (step_same_ids now w1 t) as Hid'.
    pose proof (step_store_frame h0 k now w1 t Hid Hwf Hav) as Hfr.
    pose proof (step_todo_wf now w1 t Hwf) as Hwf'.
    pose proof (step_fields now w1 t) as (_ & Hsh & _ & _ & Hsel).
    rewrite Hstep in Hid', Hfr, Hwf', Hsh, Hsel. simpl in *.
    split; [exact (same_ids_trans _ _ _ Hid Hid')|]. split; [cbn [fst]; rewrite Hfr; exact Hst|].
    intros j u Hj. apply lookup_insert_cases in Hj as [(-> & -> & _)|(_ & Hj)];
      [|exact (Hth j u Hj)].
    split; [exact Hwf'|]. unfold avoids_key. rewrite Hsh, Hsel. exact Hav. }
  exact (proj1 (proj2 (Hpres _ _ Hreach Hstart))).
Qed.

Lemma interleaving_lock_frame_witness :
  reachable (demo_world, start_all (w_heap demo_world) demo_reqs)
    (fst demo_run2, [snd demo_run1; snd demo_run2]) /\
  (forall r, r ∈ demo_reqs -> forall l, l ∈ selectSeats (w_heap demo_world) (c_show r) (c_ids r) ->
     "seat_lock:show2:s1" <> lock_key (show_id (c_show r)) (seat_id (w_heap demo_world l)) /\
     "seat_lock:show2:s1" <> finally_key (seat_id (w_heap demo_world l))) /\
  w_store (fst demo_run2) !! "seat_lock:show2:s1" = w_store demo_world !! "seat_lock:show2:s1".
Proof.
  assert (Hk : forall r, r ∈ demo_reqs -> forall l,
     l ∈ selectSeats (w_heap demo_world) (c_show r) (c_ids r) ->
     "seat_lock:show2:s1" <> lock_key (show_id (c_show r)) (seat_id (w_heap demo_world l)) /\
     "seat_lock:show2:s1" <> finally_key (seat_id (w_heap demo_world l))).
  { intros r Hr l Hl. unfold demo_reqs in Hr.
    apply elem_of_cons in Hr as [->|Hr];
      [|apply list_elem_of_singleton in Hr as ->];
      apply list_elem_of_In in Hl; vm_compute in Hl;
      repeat destruct Hl as [<-|Hl]; try contradiction; split; discriminate. }
  split; [exact demo_reachable|]. split; [exact Hk|].
  exact (interleaving_lock_frame demo_world demo_reqs _ _ _ demo_reachable Hk).
Defined.

(** *** A call run alone, by the state of its lock keys *)

Lemma NoDup_map_inv {A B} (f : A -> B) (l : list A) : NoDup (map f l) -> NoDup l.
Proof.
  induction l as [|a l IH]; simpl; intros H; [constructor|].
  apply NoDup_cons in H as [Hn H]. constructor; [|apply IH, H].
  intros Ha. apply Hn. apply list_elem_of_In, in_map, list_elem_of_In, Ha.
Qed.

(** Invariants of a call run alone, started on [w0], with its fields. *)
Lemma bookSeats_invariant (P : World -> thread -> Prop) (clock : nat -> Z) (w0 : World)
  (u : User) (sh : Show) (ids : list string) (tok bid : string) :
  (forall j w t, th_user t = u -> th_show t = sh -> th_token t = tok -> th_bid t = bid ->
     th_selected t = selectSeats (w_heap w0) sh ids -> same_ids (w_heap w0) (w_heap w) ->
     P w t -> P (fst (step_thread (clock j) w t)) (snd (step_thread (clock j) w t))) ->
  P w0 (start_call (w_heap w0) u sh ids tok bid) ->
  P (fst (bookSeats clock w0 u sh ids tok bid)) (snd (bookSeats clock w0 u sh ids tok bid)).
Proof.
  intros Hs H0. unfold bookSeats.
  pose proof (run_invariant (fun w t => (th_user t = u /\ th_show t = sh /\ th_token t = tok /\
           th_bid t = bid /\ th_selected t = selectSeats (w_heap w0) sh ids /\
           same_ids (w_heap w0) (w_heap w)) /\ P w t) clock) as H.
  apply H; [|split; [split; [|split; [|split; [|split; [|split]]]]; try reflexivity; apply same_ids_refl|exact H0]].
  clear H. intros j w t [(H1 & H2 & H3 & H4 & H5 & H6) HP].
  destruct (step_fields (clock j) w t) as (E1 & E2 & E3 & E4 & E5).
  pose proof (step_same_ids (clock j) w t) as E6.
  split; [rewrite E1, E2, E3, E4, E5;
          split; [|split; [|split; [|split; [|split]]]]; try assumption; exact (same_ids_trans _ _ _ H6 E6)|].
  apply Hs; assumption.
Qed.

Lemma lock_order_split (h0 : nat -> Seat) (sh : Show) (ids : list string)
  (pre rest : list nat) (l : nat) :
  NoDup (lock_order h0 sh ids) -> selectSeats h0 sh ids = (pre ++ l :: rest)%list ->
  forall l', l' ∈ rest -> seat_lock_key h0 sh l' <> seat_lock_key h0 sh l.
Proof.
  unfold lock_order. intros Hnd Hsel l' Hl' Heq. rewrite Hsel, map_app in Hnd.
  apply NoDup_app in Hnd as (_ & _ & Hnd). simpl in Hnd.
  apply NoDup_cons in Hnd as [Hn _]. apply Hn.
  rewrite <- Heq. apply list_elem_of_In, in_map, list_elem_of_In, Hl'.
Qed.

Lemma acquireLock_free (now : Z) (st : gmap string entry) (k v : string) :
  (forall e, st !! k = Some e -> (expiresAt e <= now)%Z) ->
  acquireLock now st k v = (true, <[k := mkEntry v (now + LOCK_TIMEOUT)%Z]> st).
Proof.
  intros H. rewrite acquireLock_eq. unfold DummyRedis.set.
  destruct (st !! k) as [e|] eqn:He; [|reflexivity].
  specialize (H e eq_refl). destruct (Z.ltb_spec now (expiresAt e)); [lia|reflexivity].
Qed.

Lemma acquireLock_live (now : Z) (st : gmap string entry) (k v : string) (e : entry) :
  st !! k = Some e -> (now < expiresAt e)%Z -> acquireLock now st k v = (false, st).
Proof.
  intros He Hlt. rewrite acquireLock_eq. unfold DummyRedis.set. rewrite He.
  destruct (Z.ltb_spec now (expiresAt e)); [reflexivity|lia].
Qed.

(** The outcome of a call whose lock keys are free. *)
Lemma bookSeats_free_keys (clock : nat -> Z) (w0 : World) (u : User) (sh : Show)
  (ids : list string) (tok bid : string) :
  NoDup (lock_order (w_heap w0) sh ids) ->
  (forall l, l ∈ selectSeats (w_heap w0) sh ids ->
     forall e, w_store w0 !! seat_lock_key (w_heap w0) sh l = Some e ->
     forall j, (expiresAt e <= clock j)%Z) ->
  phase_of (bookSeats clock w0 u sh ids tok bid) =
    Done (if existsb (fun l => negb (is_available (w_heap w0 l))) (selectSeats (w_heap w0) sh ids)
          then ErrUnavailable
          else OkBooking (confirm (new_Booking bid u sh (selectSeats (w_heap w0) sh ids)
                 (Z.of_nat (length (selectSeats (w_heap w0) sh ids)) * pricePerSeat sh)%Z))).
Proof.
  intros Hnd Hfree.
  set (h0 := w_heap w0) in *. set (sel := selectSeats h0 sh ids) in *.
  set (expected := if existsb (fun l => negb (is_available (h0 l))) sel
          then ErrUnavailable
          else OkBooking (confirm (new_Booking bid u sh sel
                 (Z.of_nat (length sel) * pricePerSeat sh)%Z))).
  assert (Hselnd : NoDup sel) by exact (NoDup_map_inv _ _ Hnd).
  pose proof (bookSeats_invariant (fun w t =>
    match th_phase t with
    | Acquiring todo => (exists pre, sel = (pre ++ todo)%list) /\ w_heap w = h0 /\
        forall l, l ∈ todo -> w_store w !! seat_lock_key h0 sh l = w_store w0 !! seat_lock_key h0 sh l
    | ContentionRelease _ _ => False
    | Commit => w_heap w = h0
    | FinallyRelease _ r | Done r => r = expected
    end) clock w0 u sh ids tok bid) as Hinv.
  destruct (bookSeats_done clock w0 u sh ids tok bid) as [res Hr].
  unfold phase_of in *. rewrite Hr. rewrite Hr in Hinv. f_equal. apply Hinv; clear Hinv.
  - intros j w t Hu Hsh _ Hbid Hsel _ H. fold h0 in Hsel. fold sel in Hsel.
    step_cases t; rewrite ?Eph in H; cbv beta iota in H; rewrite ?Eph; try exact H; try contradiction.
    + (* Acquiring [] *) destruct H as (_ & Hh & _). exact Hh.
    + (* acquisition succeeded *)
      destruct H as ([pre Hpre] & Hh & Hst).
      rewrite Hh, Hsh in Eacq. fold (seat_lock_key h0 sh l) in Eacq.
      rewrite acquireLock_free in Eacq.
      2: { intros e He. rewrite (Hst l ltac:(left)) in He. exact (Hfree l ltac:(rewrite Hpre; apply elem_of_app; right; left) e He j). }
      injection Eacq as <-. simpl.
      split; [exists (pre ++ [l])%list; rewrite <- app_assoc; exact Hpre|].
      split; [exact Hh|]. intros l' Hl'.
      rewrite lookup_insert_ne.
      2: { intros Heq. apply (lock_order_split h0 sh ids pre rest l Hnd Hpre l' Hl').
           symmetry. exact Heq. }
      apply Hst. right. exact Hl'.
    + (* acquisition refused *)
      destruct H as ([pre Hpre] & Hh & Hst).
      rewrite Hh, Hsh in Eacq. fold (seat_lock_key h0 sh l) in Eacq.
      rewrite acquireLock_free in Eacq; [discriminate|].
      intros e He. rewrite (Hst l ltac:(left)) in He.
      exact (Hfree l ltac:(rewrite Hpre; apply elem_of_app; right; left) e He j).
    + (* Commit, a seat not Available *)
      unfold expected. rewrite <- Hsel, <- H, Eex. reflexivity.
    + (* Commit, book succeeded *)
      unfold expected. rewrite <- Hsel, <- H, Eex, Hu, Hsh, Hbid. reflexivity.
    + (* Commit, book threw *)
      exfalso. rewrite Hsel in Eex, Ebk.
      assert (Hav : forall l, l ∈ sel -> is_available (w_heap w l) = true).
      { intros l Hl. pose proof (existsb_false_forall _ _ Eex l Hl) as Hav. cbv beta in Hav.
        destruct (is_available (w_heap w l)); [reflexivity|discriminate]. }
      destruct (book_all_nodup (w_heap w) sel Hselnd Hav) as [Hok _].
      rewrite Ebk in Hok. discriminate.
  - simpl. split; [exists []; reflexivity|]. split; reflexivity.
Qed.

(** The outcome of a call one of whose lock keys is held by a live lease. *)
Lemma bookSeats_live_key (clock : nat -> Z) (w0 : World) (u : User) (sh : Show)
  (ids : list string) (tok bid : string) (x : nat) (e : entry) :
  x ∈ selectSeats (w_heap w0) sh ids ->
  w_store w0 !! seat_lock_key (w_heap w0) sh x = Some e ->
  (forall j, (clock j < expiresAt e)%Z) ->
  (exists sn, phase_of (bookSeats clock w0 u sh ids tok bid) = Done (ErrContention sn)) /\
  w_heap (fst (bookSeats clock w0 u sh ids tok bid)) = w_heap w0 /\
  bookings (fst (bookSeats clock w0 u sh ids tok bid)) = bookings w0.
Proof.
  intros Hx He Hlive.
  set (h0 := w_heap w0) in *.
  pose proof (bookSeats_invariant (fun w t =>
    w_heap w = h0 /\ bookings w = bookings w0 /\
    match th_phase t with
    | Acquiring todo => exists y, y ∈ todo /\ w_store w !! seat_lock_key h0 sh y = Some e
    | ContentionRelease _ _ => True
    | Commit | FinallyRelease _ _ => False
    | Done r => exists sn, r = ErrContention sn
    end) clock w0 u sh ids tok bid) as Hinv.
  destruct (bookSeats_done clock w0 u sh ids tok bid) as [res Hr].
  unfold phase_of in *. rewrite Hr in Hinv |- *.
  destruct Hinv as (Hh & Hb & Hres).
  - intros j w t _ Hsh _ _ _ _ (Hh & Hb & H).
    step_cases t; rewrite ?Eph in H; cbv beta iota in H; rewrite ?Eph;
      try (split; [exact Hh|split; [exact Hb|]]); try exact H; try contradiction;
      try (exists (seatNumber (w_heap w c)); reflexivity); try exact I.
    + (* Acquiring [] *) destruct H as [y [Hy _]]. apply elem_of_nil in Hy. contradiction.
    + (* acquisition succeeded *)
      destruct H as [y [Hy Hey]].
      rewrite Hh, Hsh in Eacq. fold (seat_lock_key h0 sh l) in Eacq.
      assert (Hne : seat_lock_key h0 sh y <> seat_lock_key h0 sh l).
      { intros Heq. rewrite Heq in Hey.
        rewrite (acquireLock_live (clock j) _ _ _ e Hey (Hlive j)) in Eacq. discriminate. }
      apply acquireLock_true in Eacq. subst st'. simpl.
      exists y. split.
      * apply elem_of_cons in Hy as [->|Hy]; [contradiction|exact Hy].
      * rewrite lookup_insert_ne by congruence. exact Hey.
  - split; [reflexivity|]. split; [reflexivity|]. simpl.
    exists x. split; [exact Hx|exact He].
  - destruct Hres as [sn ->]. split; [exists sn; reflexivity|]. split; [exact Hh|exact Hb].
Qed.

(** The locks a successful call still holds when it returns. *)
Lemma bookSeats_ok_locks (clock : nat -> Z) (w0 : World) (u : User) (sh : Show)
  (ids : list string) (tok bid : string) (b : Booking) :
  (forall l l', l ∈ selectSeats (w_heap w0) sh ids -> l' ∈ selectSeats (w_heap w0) sh ids ->
     finally_key (seat_id (w_heap w0 l)) <> seat_lock_key (w_heap w0) sh l') ->
  phase_of (bookSeats clock w0 u sh ids tok bid) = Done (OkBooking b) ->
  forall l, l ∈ selectSeats (w_heap w0) sh ids ->
  exists j, w_store (fst (bookSeats clock w0 u sh ids tok bid)) !! seat_lock_key (w_heap w0) sh l
            = Some (mkEntry tok (clock j + LOCK_TIMEOUT)%Z).
Proof.
  intros Hcoll Hr.
  set (h0 := w_heap w0) in *. set (sel := selectSeats h0 sh ids) in *.
  set (held := fun (w : World) (L : list nat) => forall l, l ∈ L ->
     exists j, w_store w !! seat_lock_key h0 sh l = Some (mkEntry tok (clock j + LOCK_TIMEOUT)%Z)).
  pose proof (bookSeats_invariant (fun w t =>
    match th_phase t with
    | Acquiring todo => exists pre, sel = (pre ++ todo)%list /\ held w pre
    | ContentionRelease _ _ => True
    | Commit => held w sel
    | FinallyRelease todo r =>
        (forall y, y ∈ todo -> y ∈ sel) /\ ((exists b, r = OkBooking b) -> held w sel)
    | Done r => (exists b, r = OkBooking b) -> held w sel
    end) clock w0 u sh ids tok bid) as Hinv.
  unfold phase_of in Hr. cbv beta in Hinv. rewrite Hr in Hinv.
  apply Hinv; [| |exists b; reflexivity].
  - intros j w t _ Hsh Htok _ Hsel Hid H.
    step_cases t; rewrite ?Eph in H; cbv beta iota in H; rewrite ?Eph; try exact H; try exact I;
      try (intros [? ?]; discriminate).
    + (* Acquiring [] *) destruct H as [pre [Hpre Hheld]]. rewrite app_nil_r in Hpre.
      rewrite Hpre. exact Hheld.
    + (* acquisition succeeded *)
      destruct H as [pre [Hpre Hheld]].
      destruct (Hid l) as [Hsid _]. rewrite Hsid, Hsh, Htok in Eacq.
      fold h0 in Eacq. fold (seat_lock_key h0 sh l) in Eacq.
      apply acquireLock_true in Eacq. subst st'. simpl.
      exists (pre ++ [l])%list. split; [rewrite <- app_assoc; exact Hpre|].
      intros y Hy. destruct (decide (seat_lock_key h0 sh y = seat_lock_key h0 sh l)) as [Heq|Hne].
      * exists j. cbn [w_store set_store]. rewrite Heq, lookup_insert_eq. reflexivity.
      * cbn [w_store set_store]. rewrite lookup_insert_ne by congruence.
        apply elem_of_app in Hy as [Hy|Hy]; [exact (Hheld y Hy)|].
        apply list_elem_of_singleton in Hy. subst. contradiction.
    + (* Commit, unavailable *)
      split; [intros y Hy; rewrite Hsel in Hy; exact Hy|]. intros _. exact H.
    + (* Commit, booked *)
      split; [intros y Hy; rewrite Hsel in Hy; exact Hy|]. intros _. exact H.
    + (* Commit, book threw *)
      split; [intros y Hy; rewrite Hsel in Hy; exact Hy|]. intros _. exact H.
    + (* FinallyRelease [] *) destruct H as [_ H]. exact H.
    + (* FinallyRelease (l :: rest) *)
      destruct H as [Hsub Hheld]. split.
      * intros y Hy. apply Hsub. right. exact Hy.
      * intros Hok y Hy. destruct (Hheld Hok y Hy) as [j' Hj'].
        exists j'. unfold releaseLock, DummyRedis.del. simpl.
        destruct (Hid l) as [Hsid _]. rewrite Hsid.
        rewrite lookup_delete_ne; [exact Hj'|].
        exact (Hcoll l y (Hsub l ltac:(left)) Hy).
  - simpl. exists []. split; [reflexivity|]. intros y Hy. apply elem_of_nil in Hy. contradiction.
Qed.

(** Seats, bookings and lock keys after a call run alone. *)
Lemma bookSeats_effect (clock : nat -> Z) (w0 : World) (u : User)
  (sh : Show) (ids : list string) (tok bid : string) :
  NoDup (seats (screen sh)) ->
  effect_inv w0 (fst (bookSeats clock w0 u sh ids tok bid)) (snd (bookSeats clock w0 u sh ids tok bid)).
Proof.
  intros Hnd.
  assert (Hsel_nd : NoDup (selectSeats (w_heap w0) sh ids)) by (apply NoDup_filter, Hnd).
  apply (bookSeats_invariant (fun w t => effect_inv w0 w t)); [|apply effect_start].
  intros j w t _ _ _ _ Hs _ He. apply step_effect; [rewrite Hs; exact Hsel_nd|exact He].
Qed.

Lemma bookSeats_store_frame (clock : nat -> Z) (w0 : World) (u : User) (sh : Show)
  (ids : list string) (tok bid : string) (k : string) :
  (forall l, l ∈ selectSeats (w_heap w0) sh ids ->
     k <> lock_key (show_id sh) (seat_id (w_heap w0 l)) /\ k <> finally_key (seat_id (w_heap w0 l))) ->
  w_store (fst (bookSeats clock w0 u sh ids tok bid)) !! k = w_store w0 !! k.
Proof.
  intros Hk.
  pose proof (bookSeats_invariant (fun w t => todo_wf t /\ w_store w !! k = w_store w0 !! k)
                clock w0 u sh ids tok bid) as H.
  apply H; clear H.
  - intros j w t _ Hsh _ _ Hsel Hid [Hwf Hst]. split; [apply step_todo_wf, Hwf|].
    rewrite <- Hst. apply (step_store_frame (w_heap w0)); [exact Hid|exact Hwf|].
    unfold avoids_key. rewrite Hsh, Hsel. exact Hk.
  - split; [unfold todo_wf; simpl; auto|reflexivity].
Qed.

Lemma selectSeats_heap_ext (h1 h2 : nat -> Seat) (sh : Show) (ids : list string) :
  (forall l, seat_id (h1 l) = seat_id (h2 l)) ->
  selectSeats h1 sh ids = selectSeats h2 sh ids.
Proof.
  intros Hid. unfold selectSeats.
  apply filter_bool_ext. intros x _. rewrite Hid. reflexivity.
Qed.

(** *** The script at the end of the source *)

Lemma main_first_call (c1 : nat -> Z) :
  phase_of (bookSeats c1 demo_world user1 show1 ["s1"; "s2"] "tok1" "b1")
    = Done (OkBooking (mkBooking "b1" user1 show1 [0; 1] 600 CONFIRMED)) /\
  (forall l, w_heap (fst (bookSeats c1 demo_world user1 show1 ["s1"; "s2"] "tok1" "b1")) l =
     if decide (l ∈ [0; 1]) then seat_booked (demo_heap l) else demo_heap l) /\
  bookings (fst (bookSeats c1 demo_world user1 show1 ["s1"; "s2"] "tok1" "b1"))
    = [mkBooking "b1" user1 show1 [0; 1] 600 CONFIRMED] /\
  (exists j, w_store (fst (bookSeats c1 demo_world user1 show1 ["s1"; "s2"] "tok1" "b1"))
               !! "seat_lock:show1:s2" = Some (mkEntry "tok1" (c1 j + LOCK_TIMEOUT)%Z)) /\
  w_store (fst (bookSeats c1 demo_world user1 show1 ["s1"; "s2"] "tok1" "b1"))
    !! "seat_lock:show1:s3" = None.
Proof.
  assert (Hnd : NoDup (seats (screen show1))) by (simpl; repeat constructor; set_solver).
  assert (Esel : selectSeats (w_heap demo_world) show1 ["s1"; "s2"] = [0; 1]) by reflexivity.
  assert (Hph : phase_of (bookSeats c1 demo_world user1 show1 ["s1"; "s2"] "tok1" "b1")
    = Done (OkBooking (mkBooking "b1" user1 show1 [0; 1] 600 CONFIRMED))).
  { pose proof (bookSeats_free_keys c1 demo_world user1 show1 ["s1"; "s2"] "tok1" "b1") as H.
    rewrite H; [reflexivity| |].
    - apply (bool_decide_unpack _). vm_compute. reflexivity.
    - intros l _ e He. simpl in He. rewrite lookup_empty in He. discriminate. }
  destruct (bookSeats_effect_ok c1 demo_world user1 show1 ["s1"; "s2"] "tok1" "b1" _ Hnd Hph)
    as (_ & _ & Hh & Hb).
  rewrite Esel in Hh.
  split; [exact Hph|]. split; [exact Hh|]. split; [exact Hb|]. split.
  - assert (Hcoll : forall l l', l ∈ selectSeats (w_heap demo_world) show1 ["s1"; "s2"] ->
        l' ∈ selectSeats (w_heap demo_world) show1 ["s1"; "s2"] ->
        finally_key (seat_id (w_heap demo_world l)) <> seat_lock_key (w_heap demo_world) show1 l').
    { rewrite Esel. intros l l' Hl Hl'.
      apply list_elem_of_In in Hl, Hl'. simpl in Hl, Hl'.
      repeat destruct Hl as [<-|Hl]; repeat destruct Hl' as [<-|Hl']; try contradiction; discriminate. }
    assert (H1 : 1 ∈ selectSeats (w_heap demo_world) show1 ["s1"; "s2"])
      by (rewrite Esel; right; left).
    exact (bookSeats_ok_locks c1 demo_world user1 show1 ["s1"; "s2"] "tok1" "b1" _ Hcoll Hph 1 H1).
  - rewrite bookSeats_store_frame; [reflexivity|].
    rewrite Esel. intros l Hl. apply list_elem_of_In in Hl. simpl in Hl.
    repeat destruct Hl as [<-|Hl]; try contradiction; split; discriminate.
Qed.

(** X15: whatever the clock readings of its two calls, the script of the
    source books [A1], [A2] for user1 (one Confirmed booking, price 600),
    and user2's call throws, which ends the [try]: with a lock-contention
    error when all its readings come less than [LOCK_TIMEOUT] after all of
    user1's (user1's lock on [s2] was never released), with 'One or more
    seats already booked.' when all come at least [LOCK_TIMEOUT] after. The
    logged seats are [A1] and [A2] Booked and [A3] Available. *)
Theorem main_script_outcome (c1 c2 : nat -> Z) :
  (exists r, snd (main_script c1 c2) = Some r /\
     ((exists sn, r = ErrContention sn) \/ r = ErrUnavailable)) /\
  ((forall j k, (c2 j < c1 k + LOCK_TIMEOUT)%Z) ->
     exists sn, snd (main_script c1 c2) = Some (ErrContention sn)) /\
  ((forall j k, (c1 k + LOCK_TIMEOUT <= c2 j)%Z) ->
     snd (main_script c1 c2) = Some ErrUnavailable) /\
  map (booking_report (w_heap (fst (main_script c1 c2)))) (bookings (fst (main_script c1 c2)))
    = [("b1", "Chenna", ["A1"; "A2"], CONFIRMED, 600%Z)] /\
  seat_report (w_heap (fst (main_script c1 c2))) show1
    = [("A1", BOOKED); ("A2", BOOKED); ("A3", AVAILABLE)].
Proof.
  destruct (main_first_call c1) as (Hph1 & Hh1 & Hb1 & [j1 Hk2] & Hk3).
  unfold main_script.
  destruct (bookSeats c1 demo_world user1 show1 ["s1"; "s2"] "tok1" "b1") as [w1 t1] eqn:E1.
  unfold phase_of in Hph1. simpl in Hph1, Hh1, Hb1, Hk2, Hk3. rewrite Hph1. simpl.
  assert (Hnd : NoDup (seats (screen show1))) by (simpl; repeat constructor; set_solver).
  assert (Hid : forall l, seat_id (w_heap w1 l) = seat_id (demo_heap l)).
  { intros l. rewrite Hh1. destruct (decide _); reflexivity. }
  assert (Esel2 : selectSeats (w_heap w1) show1 ["s2"; "s3"] = [1; 2]).
  { rewrite (selectSeats_heap_ext _ demo_heap) by exact Hid. reflexivity. }
  assert (Hbooked : status (w_heap w1 1) = BOOKED) by (rewrite Hh1; reflexivity).
  (* user2's call while the leaked lease on [s2] is live *)
  assert (Hlive : (forall j k, (c2 j < c1 k + LOCK_TIMEOUT)%Z) ->
    exists sn, phase_of (bookSeats c2 w1 user2 show1 ["s2"; "s3"] "tok2" "b2")
               = Done (ErrContention sn)).
  { intros Hc.
    assert (Hx : 1 ∈ selectSeats (w_heap w1) show1 ["s2"; "s3"]) by (rewrite Esel2; left).
    assert (He : w_store w1 !! seat_lock_key (w_heap w1) show1 1
                 = Some (mkEntry "tok1" (c1 j1 + LOCK_TIMEOUT)%Z)).
    { unfold seat_lock_key. rewrite Hid. exact Hk2. }
    exact (proj1 (bookSeats_live_key c2 w1 user2 show1 ["s2"; "s3"] "tok2" "b2" 1 _ Hx He
                    (fun j => Hc j j1))). }
  (* user2's call after the lease has expired *)
  assert (Hfree : (forall j k, (c1 k + LOCK_TIMEOUT <= c2 j)%Z) ->
    phase_of (bookSeats c2 w1 user2 show1 ["s2"; "s3"] "tok2" "b2") = Done ErrUnavailable).
  { intros Hc. rewrite bookSeats_free_keys.
    - rewrite Esel2. simpl. unfold is_available. rewrite Hbooked. reflexivity.
    - rewrite (lock_order_heap_ext _ demo_heap) by exact Hid.
      apply (bool_decide_unpack _). vm_compute. reflexivity.
    - rewrite Esel2. intros l Hl e He j. unfold seat_lock_key in He. rewrite Hid in He.
      apply list_elem_of_In in Hl. simpl in Hl.
      destruct Hl as [<-|[<-|[]]].
      + replace (lock_key (show_id show1) (seat_id (demo_heap 1))) with "seat_lock:show1:s2"
          in He by reflexivity.
        rewrite Hk2 in He. injection He as <-. simpl. apply Hc.
      + replace (lock_key (show_id show1) (seat_id (demo_heap 2))) with "seat_lock:show1:s3"
          in He by reflexivity.
        rewrite Hk3 in He. discriminate. }
  pose proof (bookSeats_effect c2 w1 user2 show1 ["s2"; "s3"] "tok2" "b2" Hnd) as Heff.
  destruct (bookSeats_fields c2 w1 user2 show1 ["s2"; "s3"] "tok2" "b2") as (_ & _ & _ & _ & Hsel).
  destruct (bookSeats_done c2 w1 user2 show1 ["s2"; "s3"] "tok2" "b2") as [r2 Hr2].
  destruct (bookSeats c2 w1 user2 show1 ["s2"; "s3"] "tok2" "b2") as [w2 t2] eqn:E2.
  unfold phase_of in Hr2, Hlive, Hfree. simpl in Hr2, Hlive, Hfree, Hsel.
  unfold effect_inv in Heff. simpl in Heff. rewrite Hr2 in Heff, Hlive, Hfree |- *. simpl in Heff |- *.
  assert (Hrep : w_heap w2 = w_heap w1 /\ bookings w2 = bookings w1 /\
                 ((exists sn, r2 = ErrContention sn) \/ r2 = ErrUnavailable)).
  { destruct r2 as [b|sn| |].
    - exfalso. destruct Heff as [Hav _].
      rewrite Hsel, Esel2 in Hav. rewrite (Hav 1 ltac:(left)) in Hbooked. discriminate.
    - destruct Heff as [Hh Hb]. split; [exact Hh|]. split; [exact Hb|]. left. exists sn. reflexivity.
    - destruct Heff as [Hh Hb]. split; [exact Hh|]. split; [exact Hb|]. right. reflexivity.
    - contradiction. }
  destruct Hrep as (Hh2 & Hb2 & Hr).
  assert (Hres : (match r2 with
           | OkBooking _ => (w2, None)
           | ErrContention sn => (w2, Some (ErrContention sn))
           | ErrUnavailable => (w2, Some ErrUnavailable)
           | ErrAlreadyBooked => (w2, Some ErrAlreadyBooked)
           end) = (w2, Some r2)).
  { destruct Hr as [[sn ->]| ->]; reflexivity. }
  rewrite Hres. simpl. rewrite Hh2, Hb2, Hb1.
  split; [exists r2; split; [reflexivity|exact Hr]|].
  split; [intros Hc; destruct (Hlive Hc) as [sn Hsn]; injection Hsn as ->; exists sn; reflexivity|].
  split; [intros Hc; injection (Hfree Hc) as ->; reflexivity|].
  unfold booking_report, seat_report. simpl. rewrite !Hh1. split; reflexivity.
Qed.

(** *** A call run alone, by the state of its lock keys: statements *)

(** X12: a call whose lock keys are pairwise distinct and hold no lease
    that is live at any of its clock readings passes its [for] loop; it
    then returns the Confirmed booking of its selected seats, priced
    [selectedSeats.length * pricePerSeat], unless one of them is not
    Available, in which case it throws 'One or more seats already booked.'. *)
Theorem bookSeats_uncontended (clock : nat -> Z) (w0 : World) (u : User) (sh : Show)
  (ids : list string) (tok bid : string) :
  NoDup (lock_order (w_heap w0) sh ids) ->
  (forall l, l ∈ selectSeats (w_heap w0) sh ids ->
     forall e, w_store w0 !! seat_lock_key (w_heap w0) sh l = Some e ->
     forall j, (expiresAt e <= clock j)%Z) ->
  phase_of (bookSeats clock w0 u sh ids tok bid) =
    Done (if existsb (fun l => negb (is_available (w_heap w0 l))) (selectSeats (w_heap w0) sh ids)
          then ErrUnavailable
          else OkBooking (confirm (new_Booking bid u sh (selectSeats (w_heap w0) sh ids)
                 (Z.of_nat (length (selectSeats (w_heap w0) sh ids)) * pricePerSeat sh)%Z))).
Proof. intros Hnd Hfree. exact (bookSeats_free_keys clock w0 u sh ids tok bid Hnd Hfree). Qed.

Lemma bookSeats_uncontended_witness :
  NoDup (lock_order (w_heap demo_world) show1 ["s1"; "s2"]) /\
  (forall l, l ∈ selectSeats (w_heap demo_world) show1 ["s1"; "s2"] ->
     forall e, w_store demo_world !! seat_lock_key (w_heap demo_world) show1 l = Some e ->
     forall j, (expiresAt e <= clock0 j)%Z) /\
  phase_of (bookSeats clock0 demo_world user1 show1 ["s1"; "s2"] "tok1" "b1") =
    Done (if existsb (fun l => negb (is_available (w_heap demo_world l)))
               (selectSeats (w_heap demo_world) show1 ["s1"; "s2"])
          then ErrUnavailable
          else OkBooking (confirm (new_Booking "b1" user1 show1
                 (selectSeats (w_heap demo_world) show1 ["s1"; "s2"])
                 (Z.of_nat (length (selectSeats (w_heap demo_world) show1 ["s1"; "s2"]))
                  * pricePerSeat show1)%Z))).
Proof.
  assert (Hnd : NoDup (lock_order (w_heap demo_world) show1 ["s1"; "s2"]))
    by (apply (bool_decide_unpack _); vm_compute; reflexivity).
  assert (Hfree : forall l, l ∈ selectSeats (w_heap demo_world) show1 ["s1"; "s2"] ->
     forall e, w_store demo_world !! seat_lock_key (w_heap demo_world) show1 l = Some e ->
     forall j, (expiresAt e <= clock0 j)%Z).
  { intros l _ e He. simpl in He. rewrite lookup_empty in He. discriminate. }
  split; [exact Hnd|]. split; [exact Hfree|].
  exact (bookSeats_uncontended clock0 demo_world user1 show1 ["s1"; "s2"] "tok1" "b1" Hnd Hfree).
Defined.

(** X13: a call one of whose selected seats has its lock key held by a
    lease (of any token) that is live at all of the call's clock readings
    throws the lock-contention error, and changes no seat and no booking. *)
Theorem bookSeats_blocked_by_live_lease (clock : nat -> Z) (w0 : World) (u : User)
  (sh : Show) (ids : list string) (tok bid : string) (x : nat) (e : entry) :
  x ∈ selectSeats (w_heap w0) sh ids ->
  w_store w0 !! seat_lock_key (w_heap w0) sh x = Some e ->
  (forall j, (clock j < expiresAt e)%Z) ->
  (exists sn, phase_of (bookSeats clock w0 u sh ids tok bid) = Done (ErrContention sn)) /\
  w_heap (fst (bookSeats clock w0 u sh ids tok bid)) = w_heap w0 /\
  bookings (fst (bookSeats clock w0 u sh ids tok bid)) = bookings w0.
Proof.
  intros Hx He Hlive. exact (bookSeats_live_key clock w0 u sh ids tok bid x e Hx He Hlive).
Qed.

Lemma bookSeats_blocked_by_live_lease_witness :
  1 ∈ selectSeats (w_heap world_leased) show1 ["s2"; "s3"] /\
  w_store world_leased !! seat_lock_key (w_heap world_leased) show1 1 = Some (mkEntry "other" 5000) /\
  (forall j, (clock0 j < expiresAt (mkEntry "other" 5000))%Z) /\
  (exists sn, phase_of (bookSeats clock0 world_leased user2 show1 ["s2"; "s3"] "tok2" "b2")
              = Done (ErrContention sn)) /\
  w_heap (fst (bookSeats clock0 world_leased user2 show1 ["s2"; "s3"] "tok2" "b2")) = w_heap world_leased /\
  bookings (fst (bookSeats clock0 world_leased user2 show1 ["s2"; "s3"] "tok2" "b2")) = bookings world_leased.
Proof.
  assert (Hx : 1 ∈ selectSeats (w_heap world_leased) show1 ["s2"; "s3"])
    by (apply list_elem_of_In; simpl; tauto).
  assert (He : w_store world_leased !! seat_lock_key (w_heap world_leased) show1 1
               = Some (mkEntry "other" 5000)) by reflexivity.
  assert (Hl : forall j, (clock0 j < expiresAt (mkEntry "other" 5000))%Z)
    by (intros j; unfold clock0; simpl; lia).
  split; [exact Hx|]. split; [exact He|]. split; [exact Hl|].
  exact (bookSeats_blocked_by_live_lease clock0 world_leased user2 show1 ["s2"; "s3"] "tok2" "b2"
           1 _ Hx He Hl).
Defined.


